(** * Session key store over a document collection: a shallow embedding

    The development follows the TypeScript sources
    - [src/Utils]  (serialization helpers, timestamp parsing, credential
      bootstrap, validation), and
    - [src/Mongo]  (the session manager: retrying gateway, key store facade).

    Strings are [string] (one [ascii] per code unit), byte buffers are
    [list byte], the document collection is a [gmap] from [_id] to records,
    and asynchronous, failing operations are functions from a world to an
    outcome and the next world. *)

From Stdlib Require Import ZArith NArith Ascii String List Lia Bool.
From Stdlib Require Import Init.Byte Strings.Byte.
From stdpp Require Import base option strings list gmap fin_maps pretty.

Local Open Scope string_scope.
Local Open Scope Z_scope.
Local Set Warnings "-register-all".

(* ===================================================================== *)
(** * Part I. Definitions                                                *)
(* ===================================================================== *)

(* --------------------------------------------------------------------- *)
(** ** Characters and character classes                                   *)
(* --------------------------------------------------------------------- *)

Module Text.

(** Code of a character, as [charCodeAt] gives it. *)
Definition code (c : ascii) : N := N_of_ascii c.

Definition in_range (lo hi : N) (c : ascii) : bool :=
  ((lo <=? code c) && (code c <=? hi))%N.

(** The character class [[a-zA-Z0-9_-]] of both validation patterns. *)
Definition is_ident_char (c : ascii) : bool :=
  in_range 97 122 c || in_range 65 90 c || in_range 48 57 c
  || (code c =? 95)%N || (code c =? 45)%N.

Fixpoint all_chars (p : ascii -> bool) (s : string) : bool :=
  match s with
  | EmptyString => true
  | String c rest => p c && all_chars p rest
  end.

(** [/^[a-zA-Z0-9_-]{lo,hi}$/.test(s)] *)
Definition matches_ident (lo hi : nat) (s : string) : bool :=
  all_chars is_ident_char s
  && (lo <=? String.length s)%nat && (String.length s <=? hi)%nat.

(** [s.startsWith(p)] *)
Definition startsWith (s p : string) : bool := String.prefix p s.

Definition hyphen : ascii := "-"%char.

(** No ["-"] occurs in the string. *)
Definition hyphen_free (s : string) : bool :=
  all_chars (fun c => negb (Ascii.eqb c hyphen)) s.

End Text.


(* --------------------------------------------------------------------- *)
(** ** Key namespace                                                      *)
(* --------------------------------------------------------------------- *)

Module Namespace.

(** The keys of [SignalDataTypeMap]. *)
Inductive category : Type :=
| Session
| PreKey
| SenderKey
| AppStateSyncKey
| AppStateSyncVersion
| SenderKeyMemory.

#[global] Instance category_eq_dec : EqDecision category.
Proof. solve_decision. Defined.

Definition category_name (c : category) : string :=
  match c with
  | Session => "session"
  | PreKey => "pre-key"
  | SenderKey => "sender-key"
  | AppStateSyncKey => "app-state-sync-key"
  | AppStateSyncVersion => "app-state-sync-version"
  | SenderKeyMemory => "sender-key-memory"
  end.

(** [this.sessionPrefix = `${this.config.session}-`] *)
Definition sessionPrefix (session : string) : string := session +:+ "-".

(** [`${type}-${id}`], the document id the facade passes down. *)
Definition dataKey (type : category) (id : string) : string :=
  category_name type +:+ "-" +:+ id.

(** [`${this.sessionPrefix}${docId}`], the [_id] of the stored record. *)
Definition fullId (session docId : string) : string :=
  sessionPrefix session +:+ docId.

(** The storage key of a (session, category, id) triple. *)
Definition resolve (session : string) (type : category) (id : string) : string :=
  fullId session (dataKey type id).

(** The storage key of the credentials record. *)
Definition credsId (session : string) : string := fullId session "creds".

End Namespace.

(* --------------------------------------------------------------------- *)
(** ** Errors and outcomes ([src/Types])                                  *)
(* --------------------------------------------------------------------- *)

Module Outcome.

(** What a [throw] carries.  [SessionManagerError] subclasses keep their
    message and their optional [originalError]; [EngineError] stands for an
    [Error] raised by the runtime or the store driver ([TypeError],
    [SyntaxError], a driver failure); [Thrown] for a thrown value that is
    not an [Error] instance, given by its [String(...)] text. *)
Inductive error : Type :=
| EngineError (name message : string)
| Thrown (text : string)
| MongoConnectionError (message : string) (originalError : option error)
| SessionValidationError (message : string) (originalError : option error).

Inductive result (A : Type) : Type :=
| Ok (a : A)
| Throw (e : error).
Arguments Ok {A} a.
Arguments Throw {A} e.

(** [error instanceof Error ? error : undefined] *)
Definition asError (e : error) : option error :=
  match e with
  | Thrown _ => None
  | _ => Some e
  end.

(** [error instanceof Error ? error : new Error(String(error))] *)
Definition toError (e : error) : error :=
  match e with
  | Thrown text => EngineError "Error" text
  | _ => e
  end.

Definition isMongoConnectionError (e : error) : bool :=
  match e with
  | MongoConnectionError _ _ => true
  | _ => false
  end.

Definition bind {A B : Type} (r : result A) (k : A -> result B) : result B :=
  match r with
  | Ok a => k a
  | Throw e => Throw e
  end.

(** [try { body } catch (error) { handler(error) }] *)
Definition catch {A : Type} (body : result A) (handler : error -> result A)
  : result A :=
  match body with
  | Ok a => Ok a
  | Throw e => handler e
  end.

(** Apply a failing function to each element, left to right, stopping at the
    first failure. *)
Definition mapM {A B : Type} (f : A -> result B) : list A -> result (list B) :=
  fix go (l : list A) : result (list B) :=
    match l with
    | [] => Ok []
    | x :: rest =>
        match f x with
        | Throw e => Throw e
        | Ok y =>
            match go rest with
            | Throw e => Throw e
            | Ok ys => Ok (y :: ys)
            end
        end
    end.

End Outcome.

(* --------------------------------------------------------------------- *)
(** ** The runtime's base64 codec                                         *)
(* --------------------------------------------------------------------- *)

(** [Buffer#toString('base64')] and [Buffer.from(text, 'base64')] belong to
    the runtime, not to the repository.  The encoder is RFC 4648 with
    padding.  The decoder is the runtime's forgiving one: it stops at the
    first ["="], skips every character outside the alphabet, accepts the
    URL-safe characters as well, and emits a byte as soon as eight bits are
    complete. *)
Module Base64.

Local Open Scope N_scope.

Definition byte_of_N (n : N) : byte :=
  match Byte.of_N (n mod 256) with
  | Some b => b
  | None => x00
  end.

Definition char_of_N (n : N) : ascii := ascii_of_N n.

(** The character of a six-bit group. *)
Definition b64char (v : N) : ascii :=
  if v <? 26 then char_of_N (65 + v)
  else if v <? 52 then char_of_N (97 + (v - 26))
  else if v <? 62 then char_of_N (48 + (v - 52))
  else if v =? 62 then "+"%char
  else "/"%char.

(** The six-bit group of a character, if it has one. *)
Definition unbase64 (c : ascii) : option N :=
  let n := N_of_ascii c in
  if (65 <=? n) && (n <=? 90) then Some (n - 65)
  else if (97 <=? n) && (n <=? 122) then Some (n - 97 + 26)
  else if (48 <=? n) && (n <=? 57) then Some (n - 48 + 52)
  else if (n =? 43) || (n =? 45) then Some 62
  else if (n =? 47) || (n =? 95) then Some 63
  else None.

Definition pad : ascii := "="%char.

Fixpoint toBase64 (bs : list byte) : string :=
  match bs with
  | [] => EmptyString
  | [a] =>
      let x := Byte.to_N a in
      String (b64char (x / 4))
        (String (b64char ((x mod 4) * 16))
           (String pad (String pad EmptyString)))
  | [a; b] =>
      let x := Byte.to_N a in
      let y := Byte.to_N b in
      String (b64char (x / 4))
        (String (b64char ((x mod 4) * 16 + y / 16))
           (String (b64char ((y mod 16) * 4))
              (String pad EmptyString)))
  | a :: b :: c :: rest =>
      let x := Byte.to_N a in
      let y := Byte.to_N b in
      let z := Byte.to_N c in
      String (b64char (x / 4))
        (String (b64char ((x mod 4) * 16 + y / 16))
           (String (b64char ((y mod 16) * 4 + z / 64))
              (String (b64char (z mod 64)) (toBase64 rest))))
  end.

(** The six-bit groups read from a text, up to the first padding sign. *)
Fixpoint sextets (s : string) : list N :=
  match s with
  | EmptyString => []
  | String c rest =>
      if Ascii.eqb c pad then []
      else match unbase64 c with
           | Some v => v :: sextets rest
           | None => sextets rest
           end
  end.

Fixpoint bytes_of_sextets (l : list N) : list byte :=
  match l with
  | a :: b :: c :: d :: rest =>
      byte_of_N (a * 4 + b / 16)
      :: byte_of_N ((b mod 16) * 16 + c / 4)
      :: byte_of_N ((c mod 4) * 64 + d)
      :: bytes_of_sextets rest
  | [a; b; c] =>
      [byte_of_N (a * 4 + b / 16); byte_of_N ((b mod 16) * 16 + c / 4)]
  | [a; b] => [byte_of_N (a * 4 + b / 16)]
  | _ => []
  end.

Definition fromBase64 (s : string) : list byte :=
  bytes_of_sextets (sextets s).

(** The group [v] has a character of its own, which is not the padding
    sign. *)
Definition sextet_ok (v : N) : bool :=
  negb (Ascii.eqb (b64char v) pad)
  && match unbase64 (b64char v) with
     | Some w => w =? v
     | None => false
     end.

End Base64.

(* --------------------------------------------------------------------- *)
(** ** Runtime values and JSON documents                                  *)
(* --------------------------------------------------------------------- *)

(** The values the key store handles: JSON primitives, arrays, plain
    objects (their fields in enumeration order, no key twice), [Buffer]s and
    plain [Uint8Array]s.  Numbers are the integers, and [NaN], which
    [parseInt] can produce.  A serialized string is represented by the JSON
    document it spells: printing a document and reading the text back is the
    runtime's business, the repository's part are the [replacer] and
    [reviver] hooks of [BufferJSON]. *)
Module JS.
Import Outcome Base64.

Inductive number : Type :=
| Int (z : Z)
| NaN.

Inductive value : Type :=
| VNull
| VBool (b : bool)
| VNum (n : number)
| VStr (s : string)
| VArr (items : list value)
| VObj (fields : list (string * value))
| VBuffer (bytes : list byte)
| VUint8Array (bytes : list byte).

Inductive json : Type :=
| JNull
| JBool (b : bool)
| JNum (z : Z)
| JStr (s : string)
| JArr (items : list json)
| JObj (fields : list (string * json)).

Fixpoint assoc {A : Type} (k : string) (fs : list (string * A)) : option A :=
  match fs with
  | [] => None
  | (k', x) :: rest => if String.eqb k k' then Some x else assoc k rest
  end.

(** [v.k] and [v?.k] for the data properties the sources read; [None] is
    [undefined]. *)
Definition prop (k : string) (v : value) : option value :=
  match v with
  | VObj fs => assoc k fs
  | _ => None
  end.

(** [o?.k] on a value that may be [undefined] or [null]. *)
Definition opt_prop (k : string) (o : option value) : option value :=
  match o with
  | Some v => prop k v
  | None => None
  end.

Definition truthy (v : value) : bool :=
  match v with
  | VNull => false
  | VBool b => b
  | VNum (Int z) => negb (z =? 0)
  | VNum NaN => false
  | VStr s => negb (String.eqb s "")
  | _ => true
  end.

Definition opt_truthy (o : option value) : bool :=
  match o with
  | Some v => truthy v
  | None => false
  end.

(** [a || b] where [b] is always defined. *)
Definition or_else (a : option value) (b : value) : value :=
  match a with
  | Some v => if truthy v then v else b
  | None => b
  end.

Definition isArray (o : option value) : option (list value) :=
  match o with
  | Some (VArr l) => Some l
  | _ => None
  end.

Definition byte_value (b : byte) : Z := Z.of_N (Byte.to_N b).

(** The element conversion of [Buffer.from(array)] and
    [new Uint8Array(array)]: a number is reduced modulo 256, [null], [NaN]
    and [false] give 0, [true] gives 1.  Elements of other kinds, which the
    runtime first converts to a number, are taken as 0 here; no statement
    below depends on them. *)
Definition ToUint8 (v : value) : byte :=
  match v with
  | VNum (Int z) => byte_of_N (Z.to_N (z mod 256))
  | VBool true => x01
  | _ => x00
  end.

Definition Buffer_from_array (l : list value) : list byte := map ToUint8 l.

(** [buffer.toJSON().data] *)
Definition bytes_as_numbers (bs : list byte) : list value :=
  map (fun b => VNum (Int (byte_value b))) bs.

(** [Buffer.prototype.toJSON]; no other modelled value has a [toJSON]. *)
Definition toJSON (v : value) : value :=
  match v with
  | VBuffer bs =>
      VObj [("type", VStr "Buffer"); ("data", VArr (bytes_as_numbers bs))]
  | _ => v
  end.

(** [value?.type === 'Buffer' && Array.isArray(value?.data)], giving the
    data array. *)
Definition tagged_array (v : value) : option (list value) :=
  match prop "type" v with
  | Some (VStr t) =>
      if String.eqb t "Buffer" then isArray (prop "data" v) else None
  | _ => None
  end.

Module BufferJSON.

(** [BufferJSON.replacer] *)
Definition replacer (v : value) : value :=
  match tagged_array v with
  | Some d =>
      VObj [("type", VStr "Buffer");
            ("data", VStr (toBase64 (Buffer_from_array d)))]
  | None => v
  end.

(** [Buffer.from(data, 'base64')]: a string is decoded, an array is read
    element by element (the encoding is ignored), a buffer is copied;
    numbers, booleans, [null] and [undefined] are refused with a
    [TypeError].  A plain object is refused as well unless it is array-like;
    array-like plain objects are not modelled and count as refused. *)
Definition Buffer_from (data : option value) : result value :=
  match data with
  | Some (VStr s) => Ok (VBuffer (fromBase64 s))
  | Some (VArr l) => Ok (VBuffer (Buffer_from_array l))
  | Some (VBuffer bs) => Ok (VBuffer bs)
  | Some (VUint8Array bs) => Ok (VBuffer bs)
  | _ =>
      Throw (EngineError "TypeError"
               "The first argument must be a string, a Buffer or an Array")
  end.

(** [BufferJSON.reviver] *)
Definition reviver (v : value) : result value :=
  match prop "type" v with
  | Some (VStr t) =>
      if String.eqb t "Buffer" then
        catch (Buffer_from (prop "data" v))
          (fun e => Throw (SessionValidationError
                             "Failed to revive Buffer from base64" (asError e)))
      else Ok v
  | _ => Ok v
  end.

End BufferJSON.

(** The object a typed array without [toJSON] serializes to: one field per
    index. *)
Definition indexed_fields (bs : list byte) : list (string * json) :=
  imap (fun i b => (pretty i, JNum (byte_value b))) bs.

(** [JSON.stringify(value, BufferJSON.replacer)]: at every property, top
    level included, the runtime first calls [toJSON] if there is one, then
    the replacer, then serializes the outcome by its kind ([NaN] as [null]).
    The cases below are that procedure spelled out per constructor;
    [stringify_step] in Part II states the correspondence. *)
Fixpoint stringify (v : value) : json :=
  match v with
  | VNull => JNull
  | VBool b => JBool b
  | VNum (Int z) => JNum z
  | VNum NaN => JNull
  | VStr s => JStr s
  | VArr l => JArr (map stringify l)
  | VObj fs =>
      match tagged_array (VObj fs) with
      | Some d =>
          JObj [("type", JStr "Buffer");
                ("data", JStr (toBase64 (Buffer_from_array d)))]
      | None => JObj (map (fun kv => (fst kv, stringify (snd kv))) fs)
      end
  | VBuffer bs =>
      JObj [("type", JStr "Buffer");
            ("data", JStr (toBase64 (Buffer_from_array (bytes_as_numbers bs))))]
  | VUint8Array bs => JObj (indexed_fields bs)
  end.

(** Serialization of a value by its kind, once [toJSON] and the replacer
    have been applied to it; [rec] serializes the properties. *)
Definition serialize_with (rec : value -> json) (v : value) : json :=
  match v with
  | VNull => JNull
  | VBool b => JBool b
  | VNum (Int z) => JNum z
  | VNum NaN => JNull
  | VStr s => JStr s
  | VArr l => JArr (map rec l)
  | VObj fs => JObj (map (fun kv => (fst kv, rec (snd kv))) fs)
  | VBuffer bs => JObj (indexed_fields bs)
  | VUint8Array bs => JObj (indexed_fields bs)
  end.

(** [JSON.parse(text, BufferJSON.reviver)] on the text of a document: the
    reviver is called bottom-up on every property, top level last; an
    exception of the reviver ends the parse. *)
Fixpoint parse (j : json) : result value :=
  match j with
  | JNull => BufferJSON.reviver VNull
  | JBool b => BufferJSON.reviver (VBool b)
  | JNum z => BufferJSON.reviver (VNum (Int z))
  | JStr s => BufferJSON.reviver (VStr s)
  | JArr l => bind (mapM parse l) (fun items => BufferJSON.reviver (VArr items))
  | JObj fs =>
      bind (mapM (fun kv => bind (parse (snd kv)) (fun v => Ok (fst kv, v))) fs)
           (fun fs' => BufferJSON.reviver (VObj fs'))
  end.

(** A plain object that carries the buffer mark: [type] is ["Buffer"]. *)
Definition marked (fs : list (string * value)) : bool :=
  match assoc "type" fs with
  | Some (VStr t) => String.eqb t "Buffer"
  | _ => false
  end.

(** Nested structures of JSON primitives and buffers in which no plain
    object carries the buffer mark (and without [NaN] and bare typed arrays,
    which JSON does not represent). *)
Fixpoint portable (v : value) : bool :=
  match v with
  | VNum NaN => false
  | VUint8Array _ => false
  | VArr l => forallb portable l
  | VObj fs => negb (marked fs) && forallb (fun kv => portable (snd kv)) fs
  | _ => true
  end.

(** [encode] and [decode] of the serialization codec, as [writeData] and
    [readData] use them. *)
Definition encode (v : value) : json := stringify v.
Definition decode (text : json) : result value := parse text.

End JS.

(* --------------------------------------------------------------------- *)
(** ** Timestamps ([TimestampUtils])                                      *)
(* --------------------------------------------------------------------- *)

Module TimestampUtils.
Import Outcome JS Text.

(** White space that [parseInt] skips, among the code units below 256. *)
Definition is_space (c : ascii) : bool :=
  in_range 9 13 c || (code c =? 32)%N || (code c =? 160)%N.

Fixpoint trim_start (s : string) : string :=
  match s with
  | EmptyString => EmptyString
  | String c rest => if is_space c then trim_start rest else s
  end.

Definition digit (c : ascii) : option Z :=
  if in_range 48 57 c then Some (Z.of_N (code c) - 48) else None.

(** Value of the longest prefix of decimal digits, continuing from [acc]. *)
Fixpoint digits_value (s : string) (acc : Z) : Z :=
  match s with
  | EmptyString => acc
  | String c rest =>
      match digit c with
      | Some d => digits_value rest (acc * 10 + d)
      | None => acc
      end
  end.

Definition starts_with_digit (s : string) : bool :=
  match s with
  | String c _ => match digit c with Some _ => true | None => false end
  | EmptyString => false
  end.

(** [parseInt(s, 10)]: leading white space, an optional sign, then the
    longest run of digits; [NaN] when there is no digit. *)
Definition parseInt (s : string) : number :=
  let s1 := trim_start s in
  let '(sign, s2) :=
    match s1 with
    | String c rest =>
        if Ascii.eqb c "-" then (-1, rest)
        else if Ascii.eqb c "+" then (1, rest)
        else (1, s1)
    | EmptyString => (1, s1)
    end in
  if starts_with_digit s2 then Int (sign * digits_value s2 0) else NaN.

Definition isNaN (n : number) : bool :=
  match n with
  | NaN => true
  | Int _ => false
  end.

(** What [parseTimestamp] can observe of its argument: a string, a number,
    or any other value, of which it tests the truthiness and whether
    [toNumber] and [toString] are functions, and calls one of them. *)
Inductive timestamp_arg : Type :=
| TsString (s : string)
| TsNumber (n : number)
| TsOther (typeOf : string) (isTruthy : bool)
          (toNumber : option number) (toString : option string).

(** [TimestampUtils.parseTimestamp] *)
Definition parseTimestamp (timestamp : timestamp_arg) : result number :=
  match timestamp with
  | TsString s =>
      let parsed := parseInt s in
      if isNaN parsed then
        Throw (SessionValidationError ("Invalid timestamp string: " +:+ s) None)
      else Ok parsed
  | TsNumber n => Ok n
  | TsOther typeOf isTruthy toNumber toString =>
      match isTruthy, toNumber, toString with
      | true, Some n, _ => Ok n
      | true, None, Some s => Ok (parseInt s)
      | _, _, _ =>
          Throw (SessionValidationError
                   ("Unsupported timestamp type: " +:+ typeOf) None)
      end
  end.

End TimestampUtils.

(* --------------------------------------------------------------------- *)
(** ** App state sync values ([fromObject])                               *)
(* --------------------------------------------------------------------- *)

Module AppDataSync.
Import Outcome JS TimestampUtils.

(** [String(v)] of a data value, as [toString()] gives it: arrays join their
    items with commas ([null] items as the empty text), plain objects print
    as ["[object Object]"], buffers as the text of their bytes. *)
Fixpoint ToString (v : value) : string :=
  match v with
  | VNull => "null"
  | VBool true => "true"
  | VBool false => "false"
  | VNum (Int z) => pretty z
  | VNum NaN => "NaN"
  | VStr s => s
  | VArr l =>
      String.concat ","
        (map (fun x => match x with VNull => "" | _ => ToString x end) l)
  | VObj _ => "[object Object]"
  | VBuffer bs => string_of_list_byte bs
  | VUint8Array bs =>
      String.concat "," (map (fun b => pretty (byte_value b)) bs)
  end.

(** How [parseTimestamp] sees a property value ([None] is [undefined]).  A
    data object has no [toNumber] function; it inherits [toString] unless a
    field of that name hides it. *)
Definition timestamp_view (o : option value) : timestamp_arg :=
  match o with
  | None => TsOther "undefined" false None None
  | Some VNull => TsOther "object" false None None
  | Some (VBool b) => TsOther "boolean" b None (Some (ToString (VBool b)))
  | Some (VNum n) => TsNumber n
  | Some (VStr s) => TsString s
  | Some (VObj fs) =>
      TsOther "object" true None
        (match assoc "toString" fs with
         | Some _ => None
         | None => Some "[object Object]"
         end)
  | Some v => TsOther "object" true None (Some (ToString v))
  end.

(** [str.charAt(p) === '='] *)
Definition is_pad_at (str : string) (p : Z) : bool :=
  match String.get (Z.to_nat p) str with
  | Some c => (0 <=? p) && Ascii.eqb c "="
  | None => false
  end.

(** [while (--p % 4 > 1 && str.charAt(p) === '=') ++n] *)
Fixpoint count_padding (fuel : nat) (str : string) (p n : Z) : Z :=
  match fuel with
  | O => n
  | S fuel' =>
      let p' := p - 1 in
      if (Z.rem p' 4 >? 1) && is_pad_at str p'
      then count_padding fuel' str p' (n + 1)
      else n
  end.

(** [CryptoUtils.allocateForBase64]: a zero-filled array; the fractional
    size is truncated by the array constructor. *)
Definition allocateForBase64 (str : string) : value :=
  let p := Z.of_nat (String.length str) in
  if p =? 0 then VUint8Array [x00]
  else
    let n := count_padding (String.length str) str p 0 in
    let size := Z.quot (p * 3 - 4 * n) 4 in
    VUint8Array (repeat x00 (Z.to_nat size)).

Definition zero : value := VNum (Int 0).

(** The body of [fromObject], before its [catch]. *)
Definition fromObject_body (args : value) : result value :=
  match args with
  | VNull =>
      Throw (EngineError "TypeError"
               "Cannot read properties of null (reading 'fingerprint')")
  | _ =>
      let fp := prop "fingerprint" args in
      let fingerprint :=
        VObj [("rawId", or_else (opt_prop "rawId" fp) zero);
              ("currentIndex",
                or_else (opt_prop "currentIndex" fp)
                        (or_else (opt_prop "rawId" fp) zero));
              ("deviceIndexes",
                match isArray (opt_prop "deviceIndexes" fp) with
                | Some l => VArr l
                | None => VArr []
                end)] in
      let keyData :=
        match prop "keyData" args with
        | Some (VArr l) => VUint8Array (Buffer_from_array l)
        | Some (VBuffer bs) => VBuffer bs
        | Some (VUint8Array bs) => VUint8Array bs
        | _ => VUint8Array []
        end in
      bind (parseTimestamp (timestamp_view (prop "timestamp" args)))
        (fun timestamp =>
           let keyData' :=
             match prop "keyData" args with
             | Some (VStr s) => allocateForBase64 s
             | _ => keyData
             end in
           Ok (VObj [("keyData", keyData');
                     ("fingerprint", fingerprint);
                     ("timestamp", VNum timestamp)]))
  end.

(** [fromObject] *)
Definition fromObject (args : value) : result value :=
  catch (fromObject_body args)
    (fun e => Throw (SessionValidationError
                       "Failed to convert AppDataSync object" (asError e))).

(** A well-formed value of the app state sync key category. *)
Definition make (keyData : list byte) (rawId currentIndex : Z)
  (deviceIndexes : list Z) (timestamp : Z) : value :=
  VObj [("keyData", VBuffer keyData);
        ("fingerprint",
          VObj [("rawId", VNum (Int rawId));
                ("currentIndex", VNum (Int currentIndex));
                ("deviceIndexes", VArr (map (fun z => VNum (Int z)) deviceIndexes))]);
        ("timestamp", VNum (Int timestamp))].

End AppDataSync.

(* --------------------------------------------------------------------- *)
(** ** Validation ([ValidationUtils])                                     *)
(* --------------------------------------------------------------------- *)

Module ValidationUtils.
Import Text JS.

(** [isValidSessionId]: the falsy test [!session] rejects the empty string,
    which the pattern rejects as well. *)
Definition isValidSessionId (session : string) : bool :=
  if String.eqb session "" then false
  else matches_ident 1 100 session.

(** [isValidCollectionName] *)
Definition isValidCollectionName (collectionName : string) : bool :=
  if String.eqb collectionName "" then false
  else matches_ident 1 120 collectionName
       && negb (startsWith collectionName "system.").

Definition is_number (o : option value) : bool :=
  match o with
  | Some (VNum _) => true
  | _ => false
  end.

Definition is_string (o : option value) : bool :=
  match o with
  | Some (VStr _) => true
  | _ => false
  end.

(** [ValidationUtils.isValidAuthCreds] *)
Definition isValidAuthCreds (creds : value) : bool :=
  truthy creds
  && opt_truthy (prop "signedIdentityKey" creds)
  && opt_truthy (prop "signedPreKey" creds)
  && is_number (prop "registrationId" creds)
  && opt_truthy (prop "noiseKey" creds)
  && opt_truthy (prop "pairingEphemeralKeyPair" creds)
  && is_string (prop "advSecretKey" creds).

End ValidationUtils.

(* --------------------------------------------------------------------- *)
(** ** Effects: state passing with exceptions                             *)
(* --------------------------------------------------------------------- *)

(** An asynchronous function that may throw is a function from the state of
    its surroundings to an outcome and the next state.  An exception keeps
    the state reached when it was thrown. *)
Module Eff.
Import Outcome.

Definition M (S A : Type) : Type := S -> result A * S.

Definition ret {S A : Type} (a : A) : M S A := fun s => (Ok a, s).

Definition throw {S A : Type} (e : error) : M S A := fun s => (Throw e, s).

Definition bindM {S A B : Type} (m : M S A) (k : A -> M S B) : M S B :=
  fun s =>
    match m s with
    | (Ok a, s') => k a s'
    | (Throw e, s') => (Throw e, s')
    end.

(** [try { m } catch (error) { handler(error) }] *)
Definition try_catch {S A : Type} (m : M S A) (handler : error -> M S A) : M S A :=
  fun s =>
    match m s with
    | (Ok a, s') => (Ok a, s')
    | (Throw e, s') => handler e s'
    end.

(** A computation without effects. *)
Definition lift {S A : Type} (r : result A) : M S A := fun s => (r, s).

Declare Scope eff_scope.
Delimit Scope eff_scope with eff.
Notation "x <- m ;; k" := (bindM m (fun x => k))
  (at level 100, m at next level, right associativity) : eff_scope.
Notation "m ;;; k" := (bindM m (fun _ => k))
  (at level 100, right associativity) : eff_scope.

End Eff.

(* --------------------------------------------------------------------- *)
(** ** Credential bootstrap ([CryptoUtils], [initAuthCreds])              *)
(* --------------------------------------------------------------------- *)

Module Bootstrap.
Import Outcome Eff JS Base64.
Local Open Scope eff_scope.

(** The collaborators of the bootstrap: the curve library, the system's
    random source and clock, and the runtime's hex and base64url codecs.
    [R] is the state of the random source and the clock. *)
Class Runtime (R : Type) : Type := {
  curve_generateKeyPair : M R (list byte * list byte);
  curve_calculateSignature : list byte -> list byte -> M R (list byte);
  randomBytes : nat -> R -> list byte * R;
  randomUUID : R -> string * R;
  Date_now : R -> Z * R;
  hex_to_base64url : string -> string
}.

Record KeyPair : Type := {
  private : list byte;
  public : list byte
}.

Record SignedKeyPair : Type := {
  keyPair : KeyPair;
  signature : list byte;
  keyId : Z;
  timestampS : Z
}.

Record AuthenticationCreds : Type := {
  noiseKey : KeyPair;
  pairingEphemeralKeyPair : KeyPair;
  signedIdentityKey : KeyPair;
  signedPreKey : SignedKeyPair;
  registrationId : Z;
  advSecretKey : string;
  processedHistoryMessages : list value;
  nextPreKeyId : Z;
  firstUnuploadedPreKeyId : Z;
  accountSyncCounter : Z;
  unarchiveChats : bool;
  deviceId : string;
  phoneId : string;
  identityId : list byte;
  backupToken : list byte;
  registered : bool;
  pairingCode : option string;
  lastPropHash : option string;
  routingInfo : option (list byte)
}.

(** [Uint16Array.from(bytes)]: one 16-bit element per byte of the source. *)
Definition Uint16Array_from (bs : list byte) : list Z :=
  map (fun b => byte_value b mod 65536) bs.

(** [(Uint16Array.from(random)[0] ?? 0) & 16383] *)
Definition makeRegistrationId (random : list byte) : Z :=
  Z.land (match Uint16Array_from random with
          | x :: _ => x
          | [] => 0
          end) 16383.

(** [s.replace(/-/g, '')] *)
Fixpoint remove_hyphens (s : string) : string :=
  match s with
  | EmptyString => EmptyString
  | String c rest =>
      if Ascii.eqb c "-" then remove_hyphens rest
      else String c (remove_hyphens rest)
  end.

Section WithRuntime.
Context {R : Type} `{Runtime R}.

Definition wrap {A : Type} (message : string) (m : M R A) : M R A :=
  try_catch m (fun e => throw (SessionValidationError message (asError e))).

(** [CryptoUtils.generateKeyPair]: the public key loses its first byte. *)
Definition generateKeyPair : M R KeyPair :=
  wrap "Failed to generate key pair"
    (keys <- curve_generateKeyPair ;;
     ret {| private := snd keys; public := tl (fst keys) |}).

(** [CryptoUtils.generateSignalPubKey] *)
Definition generateSignalPubKey (pubKey : list byte) : list byte :=
  if (length pubKey =? 33)%nat then pubKey else x05 :: pubKey.

(** [CryptoUtils.sign] *)
Definition sign (privateKey data : list byte) : M R (list byte) :=
  wrap "Failed to sign data" (curve_calculateSignature privateKey data).

(** [CryptoUtils.createSignedKeyPair] *)
Definition createSignedKeyPair (identityKeyPair : KeyPair) (keyId : Z)
  : M R SignedKeyPair :=
  wrap ("Failed to create signed key pair for keyId: " +:+ pretty keyId)
    (preKey <- generateKeyPair ;;
     let pubKey := generateSignalPubKey (public preKey) in
     sig <- sign (private identityKeyPair) pubKey ;;
     fun r =>
       let '(now, r') := Date_now r in
       (Ok {| keyPair := preKey; signature := sig; keyId := keyId;
              timestampS := now / 1000 |}, r')).

Definition draw {A : Type} (f : R -> A * R) : M R A :=
  fun r => let '(a, r') := f r in (Ok a, r').

(** [initAuthCreds]: the fields are computed in the order of the object
    literal. *)
Definition initAuthCreds : M R AuthenticationCreds :=
  wrap "Failed to initialize authentication credentials"
    (identityKey <- generateKeyPair ;;
     noise <- generateKeyPair ;;
     pairing <- generateKeyPair ;;
     preKey <- createSignedKeyPair identityKey 1 ;;
     random2 <- draw (randomBytes 2) ;;
     secret <- draw (randomBytes 32) ;;
     uuid1 <- draw randomUUID ;;
     uuid2 <- draw randomUUID ;;
     identity <- draw (randomBytes 20) ;;
     backup <- draw (randomBytes 20) ;;
     ret {| noiseKey := noise;
            pairingEphemeralKeyPair := pairing;
            signedIdentityKey := identityKey;
            signedPreKey := preKey;
            registrationId := makeRegistrationId random2;
            advSecretKey := toBase64 secret;
            processedHistoryMessages := [];
            nextPreKeyId := 1;
            firstUnuploadedPreKeyId := 1;
            accountSyncCounter := 0;
            unarchiveChats := false;
            deviceId := hex_to_base64url (remove_hyphens uuid1);
            phoneId := uuid2;
            identityId := identity;
            backupToken := backup;
            registered := false;
            pairingCode := None;
            lastPropHash := None;
            routingInfo := None |}).

End WithRuntime.

(** A deterministic stand-in for the collaborators, for running the
    bootstrap: the state is a counter, every drawn byte is the counter's
    value, and the curve library never fails. *)
Definition counting_bytes (n : nat) (r : N) : list byte * N :=
  (map (fun i => byte_of_N (r + N.of_nat i)) (seq 0 n), (r + N.of_nat n)%N).

#[export] Instance counting_runtime : Runtime N := {|
  curve_generateKeyPair := fun r =>
    let '(pub, r1) := counting_bytes 33 r in
    let '(priv, r2) := counting_bytes 32 r1 in
    (Ok (pub, priv), r2);
  curve_calculateSignature := fun _ data r => (Ok (rev data), r);
  randomBytes := counting_bytes;
  randomUUID := fun r => ("00000000-0000-4000-8000-000000000000", (r + 1)%N);
  Date_now := fun r => (1690000000000, r);
  hex_to_base64url := fun s => s
|}.

End Bootstrap.

(* --------------------------------------------------------------------- *)
(** ** The document store                                                 *)
(* --------------------------------------------------------------------- *)

(** The one collection behind [SessionModel] (the schema binds it to
    ['baileys_sessions']), the connection, and what the driver will do on
    its next calls.  Console output and the date fields of a record are left
    out. *)
Module Store.
Import Outcome Eff JS.
Local Open Scope eff_scope.

(** The [value] field of a record, of schema type [Mixed]: a string holding
    the JSON text of a document, a string that is not JSON text, a falsy
    value, or a document stored as an object. *)
Inductive payload : Type :=
| PText (doc : json)
| PGarbage (text : string)
| PFalsy
| PObject (doc : json).

Record document : Type := {
  doc_value : payload;
  doc_session : string
}.

(** Calls that leave the process, and pauses. *)
Inductive event : Type :=
| EvConnect (uri : string)
| EvDisconnect
| EvFindById (id : string)
| EvUpdateOne (id : string)
| EvDeleteOne (id : string)
| EvDeleteMany (session : string) (except : option string)
| EvSleep (ms : Z).

(** What the driver does on a call: it succeeds, it fails with an error, or
    it fails and the connection is lost. *)
Inductive plan : Type :=
| Succeeds
| Fails (e : error)
| Drops (e : error).

Record World : Type := {
  db : gmap string document;
  isConnected : bool;
  readyState : Z;
  plans : list plan;
  log : list event
}.

Definition with_db (f : gmap string document -> gmap string document)
  (w : World) : World :=
  {| db := f (db w); isConnected := isConnected w; readyState := readyState w;
     plans := plans w; log := log w |}.

Definition set_isConnected (b : bool) (w : World) : World :=
  {| db := db w; isConnected := b; readyState := readyState w;
     plans := plans w; log := log w |}.

Definition set_readyState (z : Z) (w : World) : World :=
  {| db := db w; isConnected := isConnected w; readyState := z;
     plans := plans w; log := log w |}.

Definition set_plans (ps : list plan) (w : World) : World :=
  {| db := db w; isConnected := isConnected w; readyState := readyState w;
     plans := ps; log := log w |}.

Definition record_event (ev : event) (w : World) : World :=
  {| db := db w; isConnected := isConnected w; readyState := readyState w;
     plans := plans w; log := log w ++ [ev] |}.

Definition modify (f : World -> World) : M World unit :=
  fun w => (Ok tt, f w).

(** One call to the driver: it is logged and takes the next plan; without a
    plan it succeeds. *)
Definition driver (ev : event) : M World unit :=
  fun w =>
    let w1 := record_event ev w in
    match plans w with
    | [] => (Ok tt, w1)
    | Succeeds :: rest => (Ok tt, set_plans rest w1)
    | Fails e :: rest => (Throw e, set_plans rest w1)
    | Drops e :: rest => (Throw e, set_readyState 0 (set_plans rest w1))
    end.

(** [mongoose.connect(uri, options)] *)
Definition connect (uri : string) : M World unit :=
  driver (EvConnect uri) ;;; modify (set_readyState 1).

(** [mongoose.disconnect()] *)
Definition mongoose_disconnect : M World unit :=
  driver EvDisconnect ;;; modify (set_readyState 0).

(** [SessionModel.findById(id).lean()] *)
Definition findById (id : string) : M World (option document) :=
  driver (EvFindById id) ;;; fun w => (Ok (db w !! id), w).

(** [SessionModel.updateOne({ _id: id }, doc, { upsert: true })] *)
Definition updateOne (id : string) (doc : document) : M World unit :=
  driver (EvUpdateOne id) ;;; modify (with_db (insert id doc)).

(** [SessionModel.deleteOne({ _id: id })] *)
Definition deleteOne (id : string) : M World unit :=
  driver (EvDeleteOne id) ;;; modify (with_db (delete id)).

(** The records a [deleteMany] keeps. *)
Definition kept (session : string) (except : option string)
  (kd : string * document) : Prop :=
  ~ (doc_session (snd kd) = session /\ Some (fst kd) <> except).

#[global] Instance kept_dec session except kd : Decision (kept session except kd).
Proof. unfold kept. apply _. Defined.

(** [SessionModel.deleteMany({ session, _id: { $ne: except } })], and
    without the [_id] condition when [except] is [None]. *)
Definition deleteMany (session : string) (except : option string) : M World unit :=
  driver (EvDeleteMany session except)
  ;;; modify (with_db (filter (kept session except))).

(** [setTimeout(resolve, ms)], awaited. *)
Definition sleep (ms : Z) : M World unit := modify (record_event (EvSleep ms)).

End Store.

(* --------------------------------------------------------------------- *)
(** ** The session manager ([MongoSessionManager])                        *)
(* --------------------------------------------------------------------- *)

Module Mongo.
Import Outcome Eff JS Store Namespace ValidationUtils AppDataSync.
Local Open Scope eff_scope.

(** [MongoConfig] as the caller gives it; [None] is an option left out.
    The driver options are passed through to [connect] and play no part
    here. *)
Record MongoConfig : Type := {
  given_collectionName : option string;
  given_retryRequestDelayMs : option Z;
  given_maxRetries : option Z;
  given_session : string;
  given_debug : option bool
}.

(** [Required<MongoConfig>], after the defaults. *)
Record Config : Type := {
  collectionName : string;
  retryRequestDelayMs : Z;
  maxRetries : Z;
  session : string;
  debug : bool
}.

Record Manager : Type := {
  mongoURI : string;
  config : Config
}.

(** [given || fallback] on strings and numbers: the empty string and zero
    are falsy. *)
Definition string_or (given : option string) (fallback : string) : string :=
  match given with
  | Some s => if String.eqb s "" then fallback else s
  | None => fallback
  end.

Definition number_or (given : option Z) (fallback : Z) : Z :=
  match given with
  | Some z => if z =? 0 then fallback else z
  | None => fallback
  end.

Definition bool_or (given : option bool) (fallback : bool) : bool :=
  match given with
  | Some b => if b then true else fallback
  | None => fallback
  end.

(** The constructor. *)
Definition new_MongoSessionManager (uri : string) (given : MongoConfig)
  : result Manager :=
  if String.eqb uri "" then
    Throw (SessionValidationError
             "MongoDB URI is required and must be a string" None)
  else if String.eqb (given_session given) ""
          || negb (isValidSessionId (given_session given)) then
    Throw (SessionValidationError "Valid session identifier is required" None)
  else
    let cfg :=
      {| collectionName := string_or (given_collectionName given) "baileys-auth";
         retryRequestDelayMs := number_or (given_retryRequestDelayMs given) 200;
         maxRetries := number_or (given_maxRetries given) 10;
         session := given_session given;
         debug := bool_or (given_debug given) false |} in
    if negb (isValidCollectionName (collectionName cfg)) then
      Throw (SessionValidationError
               ("Invalid collection name: " +:+ collectionName cfg) None)
    else Ok {| mongoURI := uri; config := cfg |}.

Section Methods.
Variable this : Manager.

(** [this.sessionPrefix], set once by the constructor. *)
Definition sessionPrefix : string := Namespace.sessionPrefix (session (config this)).

(** [ensureConnection] *)
Definition ensureConnection : M World unit :=
  fun w =>
    if isConnected w && (readyState w =? 1) then (Ok tt, w)
    else
      try_catch
        (connect (mongoURI this) ;;; modify (set_isConnected true))
        (fun e =>
           modify (set_isConnected false) ;;;
           throw (MongoConnectionError "Failed to connect to MongoDB" (asError e)))
        w.

Definition exhausted (operationName : string) (lastError : option error) : error :=
  MongoConnectionError
    (operationName +:+ " failed after " +:+ pretty (maxRetries (config this))
       +:+ " attempts")
    lastError.

(** One pass through the body of the retry loop's [try]. *)
Definition attempt {T : Type} (operation : M World T) : M World T :=
  ensureConnection ;;; operation.

(** The retry loop from iteration [attempt_no] on, with [fuel] iterations
    left before [attempt_no] exceeds [maxRetries]. *)
Fixpoint retry_loop {T : Type} (fuel : nat) (attempt_no : Z)
  (lastError : option error) (operation : M World T) (operationName : string)
  : M World T :=
  match fuel with
  | O => throw (exhausted operationName lastError)
  | S fuel' =>
      try_catch (attempt operation)
        (fun e =>
           let lastError := toError e in
           if attempt_no <? maxRetries (config this) then
             sleep (retryRequestDelayMs (config this)) ;;;
             retry_loop fuel' (attempt_no + 1) (Some lastError)
               operation operationName
           else throw (exhausted operationName (Some lastError)))
  end.

(** [executeWithRetry] *)
Definition executeWithRetry {T : Type} (operation : M World T)
  (operationName : string) : M World T :=
  retry_loop (Z.to_nat (maxRetries (config this))) 1 None operation operationName.

(** The same loop, reporting besides its outcome how many attempts it made
    and the pauses it took, in order; [retry_loop_traced_outcome] in Part II
    shows that its outcome is that of [retry_loop]. *)
Fixpoint retry_loop_traced {T : Type} (fuel : nat) (attempt_no : Z)
  (lastError : option error) (operation : M World T) (operationName : string)
  (w : World) : (result T * World) * (nat * list Z) :=
  match fuel with
  | O => ((Throw (exhausted operationName lastError), w), (O, []))
  | S fuel' =>
      match attempt operation w with
      | (Ok a, w1) => ((Ok a, w1), (1%nat, []))
      | (Throw e, w1) =>
          let lastError := toError e in
          if attempt_no <? maxRetries (config this) then
            let '(out, (attempts, delays)) :=
              retry_loop_traced fuel' (attempt_no + 1) (Some lastError)
                operation operationName
                (record_event (EvSleep (retryRequestDelayMs (config this))) w1) in
            (out, (S attempts, retryRequestDelayMs (config this) :: delays))
          else ((Throw (exhausted operationName (Some lastError)), w1), (1%nat, []))
      end
  end.

Definition executeWithRetry_traced {T : Type} (operation : M World T)
  (operationName : string) (w : World) : (result T * World) * (nat * list Z) :=
  retry_loop_traced (Z.to_nat (maxRetries (config this))) 1 None
    operation operationName w.

(** [queryDocument] *)
Definition queryDocument (docId : string) : M World (option document) :=
  executeWithRetry (findById (sessionPrefix +:+ docId))
    ("Query document " +:+ docId).

(** [readData]; [VNull] is the [null] returned for a missing record. *)
Definition readData (id : string) : M World value :=
  try_catch
    (data <- queryDocument id ;;
     match data with
     | None => ret VNull
     | Some d =>
         match doc_value d with
         | PFalsy => ret VNull
         | PText doc => lift (parse doc)
         | PObject doc => lift (parse doc)
         | PGarbage text =>
             throw (EngineError "SyntaxError" "Unexpected token in JSON")
         end
     end)
    (fun e =>
       if isMongoConnectionError e then throw e
       else throw (SessionValidationError
                     ("Failed to read data for ID: " +:+ id) (asError e))).

(** [writeData] *)
Definition writeData (id : string) (v : value) : M World unit :=
  executeWithRetry
    (let serializedValue := stringify v in
     updateOne (sessionPrefix +:+ id)
       {| doc_value := PText serializedValue;
          doc_session := session (config this) |})
    ("Write data " +:+ id).

(** [removeData] *)
Definition removeData (id : string) : M World unit :=
  executeWithRetry (deleteOne (sessionPrefix +:+ id)) ("Remove data " +:+ id).

(** [clearSessionData] *)
Definition clearSessionData : M World unit :=
  executeWithRetry
    (deleteMany (session (config this)) (Some (sessionPrefix +:+ "creds")))
    "Clear session data".

(** [removeAllSessionData] *)
Definition removeAllSessionData : M World unit :=
  executeWithRetry (deleteMany (session (config this)) None)
    "Remove all session data".

(** [saveCredentials] *)
Definition saveCredentials (creds : value) : M World unit :=
  if negb (isValidAuthCreds creds) then
    throw (SessionValidationError
             "Invalid authentication credentials provided" None)
  else writeData "creds" creds.

(** The body of the [try] in the loop of [keys.get], up to the value to
    store: the value read for [id], converted by [fromObject] when the
    category is the app state sync key and the value is truthy. *)
Definition fetch (type : category) (id : string) : M World value :=
  v <- readData (dataKey type id) ;;
  if bool_decide (type = AppStateSyncKey) && truthy v
  then lift (fromObject v) else ret v.

(** One turn of the loop of [keys.get]: [data[id]] becomes the fetched
    value, or [null] when fetching throws. *)
Definition get_one (type : category) (id : string)
  (data : gmap string value) : M World (gmap string value) :=
  try_catch
    (v <- fetch type id ;; ret (<[id := v]> data))
    (fun _ => ret (<[id := VNull]> data)).

Fixpoint get_from (type : category) (ids : list string)
  (data : gmap string value) : M World (gmap string value) :=
  match ids with
  | [] => ret data
  | id :: rest => data' <- get_one type id data ;; get_from type rest data'
  end.

(** [keys.get] of the authentication state.  The result object is a map
    from id to value; [VNull] stands for an absent key. *)
Definition get (type : category) (ids : list string)
  : M World (gmap string value) :=
  get_from type ids ∅.

(** One turn of the inner loop of [keys.set]. *)
Definition set_one (type : category) (id : string) (v : value) : M World unit :=
  let dataKey := dataKey type id in
  try_catch
    (if truthy v then writeData dataKey v else removeData dataKey)
    (fun e => throw e).

Fixpoint set_ids (type : category) (categoryData : list (string * value))
  : M World unit :=
  match categoryData with
  | [] => ret tt
  | (id, v) :: rest => set_one type id v ;;; set_ids type rest
  end.

(** [keys.set]: the categories and, inside each, the ids come in the
    enumeration order of the objects; [None] is a category whose entry is
    [undefined], [VNull] a [null] value. *)
Fixpoint set (data : list (category * option (list (string * value))))
  : M World unit :=
  match data with
  | [] => ret tt
  | (type, categoryData) :: rest =>
      match categoryData with
      | Some entries => set_ids type entries
      | None => ret tt
      end ;;; set rest
  end.

(** [keys.clear] *)
Definition clear : M World unit := clearSessionData.

(** [query]; the collection argument is there for compatibility only. *)
Definition query (collection docId : string) : M World (option document) :=
  queryDocument docId.

(** [disconnect] *)
Definition disconnect : M World unit :=
  fun w =>
    if isConnected w
    then (mongoose_disconnect ;;; modify (set_isConnected false)) w
    else (Ok tt, w).

End Methods.

(** What [readData] makes of the record found under a key, before its
    [catch]. *)
Definition stored_value (found : option document) : result value :=
  match found with
  | None => Ok VNull
  | Some d =>
      match doc_value d with
      | PFalsy => Ok VNull
      | PText doc => parse doc
      | PObject doc => parse doc
      | PGarbage text => Throw (EngineError "SyntaxError" "Unexpected token in JSON")
      end
  end.

(** The world after a failed attempt and the pause that follows it. *)
Definition paused (this : Manager) (w : World) : World :=
  record_event (EvSleep (retryRequestDelayMs (config this))) w.

(** The world in which attempt number [k + 1] starts when the [k] attempts
    before it have failed: each of them is followed by one pause. *)
Fixpoint after_failures {T : Type} (this : Manager) (operation : M World T)
  (k : nat) (w : World) : World :=
  match k with
  | O => w
  | S k' =>
      after_failures this operation k'
        (paused this (snd (attempt this operation w)))
  end.

(** The pauses recorded in a log, in order. *)
Definition pauses (l : list event) : list Z :=
  omap (fun ev => match ev with EvSleep ms => Some ms | _ => None end) l.

(** [operation] meets [Q]: when it returns [a], [Q] relates the collection
    before, [a] and the collection after; when it throws, the collection is
    as before. *)
Definition meets {T : Type}
  (Q : gmap string document -> T -> gmap string document -> Prop)
  (operation : M World T) : Prop :=
  forall w,
    match operation w with
    | (Ok a, w') => Q (db w) a (db w')
    | (Throw _, w') => db w' = db w
    end.

(** What is left of a record after a sweep of [session] that spares the
    ids in [spared]. *)
Definition swept (session : string) (spared : option string) (id : string)
  (before : option document) : option document :=
  match before with
  | Some d =>
      if bool_decide (doc_session d = session /\ Some id <> spared)
      then None else Some d
  | None => None
  end.

(** What the methods read of a manager. *)
Definition agree (m1 m2 : Manager) : Prop :=
  mongoURI m1 = mongoURI m2
  /\ retryRequestDelayMs (config m1) = retryRequestDelayMs (config m2)
  /\ maxRetries (config m1) = maxRetries (config m2)
  /\ session (config m1) = session (config m2).

(** Two configurations that differ at most in the collection name. *)
Definition same_but_collectionName (a b : MongoConfig) : Prop :=
  given_retryRequestDelayMs a = given_retryRequestDelayMs b
  /\ given_maxRetries a = given_maxRetries b
  /\ given_session a = given_session b
  /\ given_debug a = given_debug b.

(** The operations an application issues on a manager, and what they
    answer. *)
Inductive request : Type :=
| ReqGet (type : category) (ids : list string)
| ReqSet (data : list (category * option (list (string * value))))
| ReqClear
| ReqClearSessionData
| ReqRemoveAllSessionData
| ReqSaveCredentials (creds : value)
| ReqQuery (collection docId : string)
| ReqDisconnect.

Inductive answer : Type :=
| Values (data : gmap string value)
| Found (doc : option document)
| Done.

Definition serve (this : Manager) (rq : request) : M World answer :=
  match rq with
  | ReqGet type ids => data <- get this type ids ;; ret (Values data)
  | ReqSet data => set this data ;;; ret Done
  | ReqClear => clear this ;;; ret Done
  | ReqClearSessionData => clearSessionData this ;;; ret Done
  | ReqRemoveAllSessionData => removeAllSessionData this ;;; ret Done
  | ReqSaveCredentials creds => saveCredentials this creds ;;; ret Done
  | ReqQuery collection docId =>
      doc <- query this collection docId ;; ret (Found doc)
  | ReqDisconnect => disconnect ;;; ret Done
  end.

(** A sequence of requests, each served whatever the earlier ones
    answered; the outcomes are collected in order. *)
Fixpoint serve_all (this : Manager) (rqs : list request) (w : World)
  : list (result answer) * World :=
  match rqs with
  | [] => ([], w)
  | rq :: rest =>
      let '(r, w1) := serve this rq w in
      let '(rs, w2) := serve_all this rest w1 in
      (r :: rs, w2)
  end.

End Mongo.

(* --------------------------------------------------------------------- *)
(** ** Sample managers and worlds                                         *)
(* --------------------------------------------------------------------- *)

Module Samples.
Import Outcome JS Store Namespace Mongo.

(** A manager for session ["main"] with three attempts per operation. *)
Definition main3 : Manager :=
  {| mongoURI := "mongodb://localhost:27017/whatsapp";
     config := {| collectionName := "baileys-auth";
                  retryRequestDelayMs := 200;
                  maxRetries := 3;
                  session := "main";
                  debug := false |} |}.

Definition timeout : error := EngineError "MongoNetworkError" "timeout".

(** A connected world whose driver follows [ps]. *)
Definition connected (records : gmap string document) (ps : list plan) : World :=
  {| db := records; isConnected := true; readyState := 1;
     plans := ps; log := [] |}.

(** A fresh world: nothing stored, not connected, no failure ahead. *)
Definition fresh : World :=
  {| db := ∅; isConnected := false; readyState := 0; plans := []; log := [] |}.

Definition record_of (session : string) (doc : json) : document :=
  {| doc_value := PText doc; doc_session := session |}.

(** Records of two sessions, credentials included. *)
Definition two_sessions : gmap string document :=
  <["main-creds" := record_of "main" (JObj [("registered", JBool false)])]>
  (<["main-pre-key-1" := record_of "main" (JNum 1)]>
  (<["main-session-a" := record_of "main" (JNum 2)]>
  (<["other-creds" := record_of "other" (JObj [])]>
  (<["other-pre-key-1" := record_of "other" (JNum 3)]> ∅)))).

(** The configuration of [main3] as a caller writes it, and the same with
    another collection name. *)
Definition given_main3 : MongoConfig :=
  {| given_collectionName := None;
     given_retryRequestDelayMs := Some 200;
     given_maxRetries := Some 3;
     given_session := "main";
     given_debug := None |}.

Definition given_main3_archive : MongoConfig :=
  {| given_collectionName := Some "archive";
     given_retryRequestDelayMs := Some 200;
     given_maxRetries := Some 3;
     given_session := "main";
     given_debug := None |}.

Definition main3_archive : Manager :=
  {| mongoURI := "mongodb://localhost:27017/whatsapp";
     config := {| collectionName := "archive";
                  retryRequestDelayMs := 200;
                  maxRetries := 3;
                  session := "main";
                  debug := false |} |}.

End Samples.

(* --------------------------------------------------------------------- *)
(** ** Opening a session ([getAuthState], [useMongoAuthState])            *)
(* --------------------------------------------------------------------- *)

(** [getAuthState] reads the credentials record and falls back on the
    bootstrap; the key store it returns beside the credentials is [get],
    [set] and [clear] of the manager.  The state is the world of the store
    together with the state of the bootstrap's collaborators. *)
Module AuthState.
Import Outcome Eff JS Store Mongo Bootstrap.
Local Open Scope eff_scope.

(** [state.creds]: what was read from the store, or a bundle made by
    [initAuthCreds]. *)
Inductive credentials : Type :=
| Stored (creds : value)
| Fresh (creds : AuthenticationCreds).

Section WithRuntime.
Context {R : Type} `{Runtime R}.

Definition on_world {A : Type} (m : M World A) : M (World * R) A :=
  fun s => let '(a, w') := m (fst s) in (a, (w', snd s)).

Definition on_runtime {A : Type} (m : M R A) : M (World * R) A :=
  fun s => let '(a, r') := m (snd s) in (a, (fst s, r')).

(** [getAuthState], up to [state.creds]:
    [(await this.readData("creds")) || initAuthCreds()]. *)
Definition getAuthState (this : Manager) : M (World * R) credentials :=
  stored <- on_world (readData this "creds") ;;
  if truthy stored then ret (Stored stored)
  else creds <- on_runtime initAuthCreds ;; ret (Fresh creds).

(** [useMongoAuthState]: the manager and [state.creds].  The functions it
    returns beside the state are [saveCredentials] (on [state.creds]),
    [clearSessionData], [removeAllSessionData], [query] and [disconnect] of
    that manager. *)
Definition useMongoAuthState (uri : string) (given : MongoConfig)
  : M (World * R) (Manager * credentials) :=
  match new_MongoSessionManager uri given with
  | Throw e => throw e
  | Ok manager => creds <- getAuthState manager ;; ret (manager, creds)
  end.

End WithRuntime.

End AuthState.

(* --------------------------------------------------------------------- *)
(** ** Shapes of values and collections                                   *)
(* --------------------------------------------------------------------- *)

Module Shapes.
Import Outcome JS Store Namespace Mongo AppDataSync.

(** No plain object anywhere in the value carries the buffer mark. *)
Fixpoint unmarked (v : value) : bool :=
  match v with
  | VArr l => forallb unmarked l
  | VObj fs => negb (marked fs) && forallb (fun kv => unmarked (snd kv)) fs
  | _ => true
  end.


(** Every record's [_id] starts with the record's [session] and a
    hyphen. *)
Definition well_tagged (records : gmap string document) : Prop :=
  forall id d,
    records !! id = Some d ->
    Text.startsWith id (Namespace.sessionPrefix (doc_session d)) = true.

(** Every record of [after] is a record of [before], or it carries
    [session] and its [_id] starts with the prefix of [session]. *)
Definition grown (session : string) (before after : gmap string document) : Prop :=
  forall id d,
    after !! id = Some d ->
    before !! id = Some d
    \/ (doc_session d = session
        /\ Text.startsWith id (Namespace.sessionPrefix session) = true).

(** The storage keys that a delta passed to [keys.set] names. *)
Fixpoint touched (session : string)
  (data : list (category * option (list (string * value)))) : list string :=
  match data with
  | [] => []
  | (type, Some entries) :: rest =>
      map (fun kv => resolve session type (fst kv)) entries
      ++ touched session rest
  | (_, None) :: rest => touched session rest
  end.

(** What [keys.get] makes of the record found under a key when the store
    works: the decoded value, passed through [fromObject] in the app state
    sync key category when it is truthy, and [null] when decoding or
    conversion throws. *)
Definition answer_for (type : category) (found : option document) : value :=
  match stored_value found with
  | Ok v =>
      if bool_decide (type = AppStateSyncKey) && truthy v then
        match fromObject v with
        | Ok v' => v'
        | Throw _ => VNull
        end
      else v
  | Throw _ => VNull
  end.

End Shapes.

(* --------------------------------------------------------------------- *)
(** ** More samples                                                       *)
(* --------------------------------------------------------------------- *)

Module MoreSamples.
Import Outcome JS Store Namespace Mongo.

Definition sample_keyPair (a b : byte) : value :=
  VObj [("private", VBuffer [a]); ("public", VBuffer [b])].

(** Credentials with the fields [isValidAuthCreds] asks for. *)
Definition sample_creds : value :=
  VObj [("noiseKey", sample_keyPair x01 x02);
        ("pairingEphemeralKeyPair", sample_keyPair x03 x04);
        ("signedIdentityKey", sample_keyPair x05 x06);
        ("signedPreKey",
          VObj [("keyPair", sample_keyPair x07 x08);
                ("signature", VBuffer [x09]);
                ("keyId", VNum (Int 1))]);
        ("registrationId", VNum (Int 77));
        ("advSecretKey", VStr "c2VjcmV0");
        ("registered", VBool false)].

(** A record whose text is not JSON. *)
Definition garbled : gmap string document :=
  <["main-pre-key-1" := {| doc_value := PGarbage "{"; doc_session := "main" |}]> ∅.



End MoreSamples.

(* ===================================================================== *)
(** * Part II. Properties                                                 *)
(* ===================================================================== *)

Module TextFacts.
Import Text.

Lemma chars_app (a b : string) :
  list_ascii_of_string (a +:+ b)
  = (list_ascii_of_string a ++ list_ascii_of_string b)%list.
Proof.
  induction a as [|c a IH]; simpl; [reflexivity|]. now rewrite IH.
Qed.

Lemma chars_inj (a b : string) :
  list_ascii_of_string a = list_ascii_of_string b -> a = b.
Proof.
  intros H.
  rewrite <- (string_of_list_ascii_of_string a),
          <- (string_of_list_ascii_of_string b).
  now rewrite H.
Qed.

Lemma hyphen_free_chars (s : string) :
  hyphen_free s = true -> ~ In hyphen (list_ascii_of_string s).
Proof.
  unfold hyphen_free.
  induction s as [|c s IH]; simpl; [tauto|].
  intros H [Hc|Hin].
  - subst c. now rewrite Ascii.eqb_refl in H.
  - apply andb_prop in H as [_ H]. now apply IH.
Qed.

(** A list is cut in one way only at its last occurrence of [x]. *)
Lemma cut_at_last {A : Type} (x : A) (a a' i i' : list A) :
  ~ In x i -> ~ In x i' ->
  (a ++ x :: i = a' ++ x :: i')%list -> a = a' /\ i = i'.
Proof.
  intros Hi Hi'. revert a'.
  induction a as [|y a IH]; intros [|y' a'] H; simpl in H.
  - injection H as ->. now split.
  - injection H as <- ->. exfalso. apply Hi. apply in_or_app. right. now left.
  - injection H as -> <-. exfalso. apply Hi'. apply in_or_app. right. now left.
  - injection H as -> H. destruct (IH _ H) as [-> ->]. now split.
Qed.

End TextFacts.

Module NamespaceFacts.
Import Text Namespace TextFacts ValidationUtils.

(** The characters of a storage key, grouped at the last separator. *)
Lemma resolve_chars (s : string) (c : category) (i : string) :
  list_ascii_of_string (resolve s c i)
  = ((list_ascii_of_string s ++ hyphen :: list_ascii_of_string (category_name c))
       ++ hyphen :: list_ascii_of_string i)%list.
Proof.
  unfold resolve, fullId, sessionPrefix, dataKey.
  rewrite !chars_app. simpl. rewrite <- !app_assoc. reflexivity.
Qed.

(** No category name ends with ["-"] followed by another category name, so
    the session and the category are read off the part before the last
    separator. *)
Lemma session_category_inj (s s' : string) (c c' : category) :
  (list_ascii_of_string s ++ hyphen :: list_ascii_of_string (category_name c)
   = list_ascii_of_string s' ++ hyphen :: list_ascii_of_string (category_name c'))%list ->
  s = s' /\ c = c'.
Proof.
  intros H. apply (f_equal (@rev ascii)) in H.
  rewrite !rev_app_distr in H. simpl in H. rewrite <- !app_assoc in H.
  destruct c, c';
    first
      [ (* same category: cancel its reversed name and the separator *)
        apply app_inv_head in H; injection H as H;
        split; [now apply chars_inj, rev_inj | reflexivity]
      | (* different categories: their reversed names part within the
           shorter one *)
        cbn in H; discriminate H ].
Qed.

(** C1 (as amended): over ids that contain no hyphen, the storage key
    [session + "-" + category + "-" + id] determines the triple
    (session, category, id); this holds for every session identifier, valid
    ones included. *)
Theorem resolve_injective_hyphen_free_ids
  (s s' : string) (c c' : category) (i i' : string) :
  hyphen_free i = true -> hyphen_free i' = true ->
  resolve s c i = resolve s' c' i' ->
  s = s' /\ c = c' /\ i = i'.
Proof.
  intros Hi Hi' H.
  apply (f_equal list_ascii_of_string) in H.
  rewrite !resolve_chars in H.
  apply cut_at_last in H as [Hsc Hid]; try now apply hyphen_free_chars.
  apply session_category_inj in Hsc as [-> ->].
  apply chars_inj in Hid. now subst.
Qed.

Lemma resolve_injective_hyphen_free_ids_witness :
  hyphen_free "42" = true /\ hyphen_free "42" = true /\
  ("main" = "main" /\ PreKey = PreKey /\ "42" = "42").
Proof.
  split; [reflexivity|]. split; [reflexivity|].
  apply (resolve_injective_hyphen_free_ids "main" "main" PreKey PreKey "42" "42");
    reflexivity.
Defined.

(** With the session and the category fixed, every id has a key of its own,
    hyphens or not. *)
Lemma resolve_injective_in_id (s : string) (c : category) (i i' : string) :
  resolve s c i = resolve s c i' -> i = i'.
Proof.
  unfold resolve, fullId, dataKey. intros H.
  apply (inj (String.app (sessionPrefix s))) in H.
  apply (inj (String.app (category_name c))) in H.
  now injection H.
Qed.

(** C1 (as stated) fails: inside one valid session, two different
    (category, id) pairs share a storage key, because ["sender-key"] followed
    by the separator is a prefix of ["sender-key-memory"] followed by it. *)
Lemma resolve_collision_same_session :
  isValidSessionId "main" = true /\
  ("main", SenderKey, "memory-x") <> ("main", SenderKeyMemory, "x") /\
  resolve "main" SenderKey "memory-x" = resolve "main" SenderKeyMemory "x".
Proof.
  split; [reflexivity|]. split; [discriminate|reflexivity].
Qed.

(** Two different valid sessions collide as well: a hyphen may end the
    session part anywhere. *)
Lemma resolve_collision_across_sessions :
  isValidSessionId "a" = true /\ isValidSessionId "a-session" = true /\
  resolve "a" Session "session-x" = resolve "a-session" Session "x".
Proof. repeat split. Qed.

End NamespaceFacts.

Module Base64Facts.
Import Base64.
Local Open Scope N_scope.

Lemma to_N_lt (b : byte) : Byte.to_N b < 256.
Proof. pose proof (Byte.to_N_bounded b). lia. Qed.

Lemma byte_of_to_N (b : byte) : byte_of_N (Byte.to_N b) = b.
Proof.
  unfold byte_of_N.
  rewrite N.mod_small by apply to_N_lt.
  now rewrite Byte.of_to_N.
Qed.

Lemma sextet_table : forallb sextet_ok (map N.of_nat (seq 0 64)) = true.
Proof. vm_compute. reflexivity. Qed.

Lemma sextet_char (v : N) :
  v < 64 ->
  Ascii.eqb (b64char v) pad = false /\ unbase64 (b64char v) = Some v.
Proof.
  intros Hv.
  assert (Hin : In v (map N.of_nat (seq 0 64))).
  { rewrite <- (N2Nat.id v). apply in_map, in_seq. lia. }
  pose proof (proj1 (forallb_forall _ _) sextet_table v Hin) as Hok.
  unfold sextet_ok in Hok. apply andb_prop in Hok as [Hpad Hun].
  split.
  - now apply negb_true_iff.
  - destruct (unbase64 (b64char v)) as [w|]; [|discriminate].
    apply N.eqb_eq in Hun. now subst.
Qed.

Lemma sextets_cons (v : N) (s : string) :
  v < 64 -> sextets (String (b64char v) s) = v :: sextets s.
Proof.
  intros Hv. destruct (sextet_char v Hv) as [Hp Hu].
  simpl. now rewrite Hp, Hu.
Qed.

Lemma sextets_pad (s : string) : sextets (String pad s) = [].
Proof. reflexivity. Qed.

(** Lists are scanned three bytes at a time. *)
Lemma list_ind3 {A : Type} (P : list A -> Prop) :
  P [] -> (forall a, P [a]) -> (forall a b, P [a; b]) ->
  (forall a b c l, P l -> P (a :: b :: c :: l)) ->
  forall l, P l.
Proof.
  intros H0 H1 H2 H3.
  fix IH 1. intros [|a [|b [|c l]]];
    [apply H0 | apply H1 | apply H2 | apply H3, IH].
Qed.

Ltac byte_bounds :=
  repeat match goal with
         | b : byte |- _ =>
             lazymatch goal with
             | _ : Byte.to_N b < 256 |- _ => fail
             | _ => pose proof (to_N_lt b)
             end
         end.

Lemma hi6 (x : N) : x < 256 -> x / 4 < 64.
Proof. intros. apply N.Div0.div_lt_upper_bound. lia. Qed.

Lemma mid6 (x y : N) : y < 256 -> (x mod 4) * 16 + y / 16 < 64.
Proof.
  intros. pose proof (N.mod_upper_bound x 4).
  assert (y / 16 < 16) by (apply N.Div0.div_lt_upper_bound; lia). lia.
Qed.

Lemma mid6' (y z : N) : z < 256 -> (y mod 16) * 4 + z / 64 < 64.
Proof.
  intros. pose proof (N.mod_upper_bound y 16).
  assert (z / 64 < 4) by (apply N.Div0.div_lt_upper_bound; lia). lia.
Qed.

Lemma lo6 (z : N) : z mod 64 < 64.
Proof. apply N.mod_upper_bound. lia. Qed.

Lemma join1 (x y : N) :
  y < 256 -> (x / 4) * 4 + ((x mod 4) * 16 + y / 16) / 16 = x.
Proof.
  intros Hy.
  assert (Hq : y / 16 < 16) by (apply N.Div0.div_lt_upper_bound; lia).
  pose proof (N.mod_upper_bound x 4 ltac:(lia)) as Hm.
  replace (((x mod 4) * 16 + y / 16) / 16) with (x mod 4).
  - pose proof (N.div_mod x 4 ltac:(lia)). lia.
  - symmetry. rewrite N.add_comm, N.div_add by lia.
    rewrite N.div_small by lia. reflexivity.
Qed.

Lemma join2 (x y z : N) :
  y < 256 -> z < 256 ->
  (((x mod 4) * 16 + y / 16) mod 16) * 16 + ((y mod 16) * 4 + z / 64) / 4 = y.
Proof.
  intros Hy Hz.
  assert (Hq : y / 16 < 16) by (apply N.Div0.div_lt_upper_bound; lia).
  assert (Hr : z / 64 < 4) by (apply N.Div0.div_lt_upper_bound; lia).
  replace (((x mod 4) * 16 + y / 16) mod 16) with (y / 16).
  2:{ symmetry. rewrite N.add_comm, N.Div0.mod_add. now apply N.mod_small. }
  replace (((y mod 16) * 4 + z / 64) / 4) with (y mod 16).
  2:{ symmetry. rewrite N.add_comm, N.div_add by lia.
      rewrite N.div_small by lia. reflexivity. }
  pose proof (N.div_mod y 16 ltac:(lia)). lia.
Qed.

Lemma join3 (y z : N) :
  z < 256 ->
  (((y mod 16) * 4 + z / 64) mod 4) * 64 + z mod 64 = z.
Proof.
  intros Hz.
  assert (Hr : z / 64 < 4) by (apply N.Div0.div_lt_upper_bound; lia).
  replace (((y mod 16) * 4 + z / 64) mod 4) with (z / 64).
  2:{ symmetry. rewrite N.add_comm, N.Div0.mod_add. now apply N.mod_small. }
  pose proof (N.div_mod z 64 ltac:(lia)). lia.
Qed.

(** Decoding what the encoder wrote gives the bytes back. *)
Lemma fromBase64_toBase64 (bs : list byte) : fromBase64 (toBase64 bs) = bs.
Proof.
  unfold fromBase64.
  induction bs as [|a|a b|a b c l IH] using list_ind3; byte_bounds.
  - reflexivity.
  - cbn [toBase64].
    rewrite sextets_cons by now apply hi6.
    rewrite sextets_cons by
      (replace ((Byte.to_N a mod 4) * 16) with ((Byte.to_N a mod 4) * 16 + 0 / 16)
         by (rewrite N.Div0.div_0_l; lia); now apply mid6).
    rewrite sextets_pad. cbn [bytes_of_sextets].
    replace ((Byte.to_N a mod 4) * 16) with ((Byte.to_N a mod 4) * 16 + 0 / 16)
      by (rewrite N.Div0.div_0_l; lia).
    rewrite join1 by lia. now rewrite byte_of_to_N.
  - cbn [toBase64].
    rewrite sextets_cons by now apply hi6.
    rewrite sextets_cons by now apply mid6.
    rewrite sextets_cons by
      (replace ((Byte.to_N b mod 16) * 4) with ((Byte.to_N b mod 16) * 4 + 0 / 64)
         by (rewrite N.Div0.div_0_l; lia); now apply mid6').
    rewrite sextets_pad. cbn [bytes_of_sextets].
    rewrite join1 by lia.
    replace ((Byte.to_N b mod 16) * 4) with ((Byte.to_N b mod 16) * 4 + 0 / 64)
      by (rewrite N.Div0.div_0_l; lia).
    rewrite (join2 _ _ 0) by lia. now rewrite !byte_of_to_N.
  - cbn [toBase64].
    rewrite sextets_cons by now apply hi6.
    rewrite sextets_cons by now apply mid6.
    rewrite sextets_cons by now apply mid6'.
    rewrite sextets_cons by apply lo6.
    cbn [bytes_of_sextets]. rewrite IH.
    rewrite join1, join2, join3 by lia. now rewrite !byte_of_to_N.
Qed.

End Base64Facts.

Module JSFacts.
Import Outcome Base64 Base64Facts JS JS.BufferJSON.

(** Induction over values, with the hypothesis for every item of an array
    and every field of an object. *)
Lemma value_nested_ind (P : value -> Prop) :
  P VNull -> (forall b, P (VBool b)) -> (forall n, P (VNum n)) ->
  (forall s, P (VStr s)) ->
  (forall l, Forall P l -> P (VArr l)) ->
  (forall fs, Forall (fun kv => P (snd kv)) fs -> P (VObj fs)) ->
  (forall bs, P (VBuffer bs)) -> (forall bs, P (VUint8Array bs)) ->
  forall v, P v.
Proof.
  intros Hnull Hbool Hnum Hstr Harr Hobj Hbuf Hu8.
  fix IH 1. intros [ | b | n | s | l | fs | bs | bs ].
  - exact Hnull.
  - apply Hbool.
  - apply Hnum.
  - apply Hstr.
  - apply Harr.
    exact ((fix items (l : list value) : Forall P l :=
              match l with
              | [] => List.Forall_nil P
              | x :: rest => List.Forall_cons P x rest (IH x) (items rest)
              end) l).
  - apply Hobj.
    exact ((fix fields (fs : list (string * value))
              : Forall (fun kv => P (snd kv)) fs :=
              match fs with
              | [] => List.Forall_nil _
              | kv :: rest =>
                  List.Forall_cons (fun kv => P (snd kv)) kv rest
                    (IH (snd kv)) (fields rest)
              end) fs).
  - apply Hbuf.
  - apply Hu8.
Qed.

(** [stringify] is the runtime's procedure: [toJSON], then the replacer,
    then serialization by kind, recursively. *)
Lemma stringify_step (v : value) :
  stringify v = serialize_with stringify (replacer (toJSON v)).
Proof.
  destruct v as [ | b | [z|] | s | l | fs | bs | bs ]; try reflexivity.
  unfold toJSON, replacer. cbn [stringify].
  destruct (tagged_array (VObj fs)); reflexivity.
Qed.

Lemma ToUint8_byte (b : byte) : ToUint8 (VNum (Int (byte_value b))) = b.
Proof.
  unfold ToUint8, byte_value.
  pose proof (to_N_lt b).
  rewrite Z.mod_small by lia.
  rewrite N2Z.id. apply byte_of_to_N.
Qed.

(** [Buffer.from(buffer.toJSON().data)] has the bytes of [buffer]. *)
Lemma Buffer_from_array_bytes (bs : list byte) :
  Buffer_from_array (bytes_as_numbers bs) = bs.
Proof.
  unfold Buffer_from_array, bytes_as_numbers.
  induction bs as [|b bs IH]; cbn [map]; [reflexivity|].
  now rewrite ToUint8_byte, IH.
Qed.

Lemma mapM_roundtrip {A B : Type} (f : A -> B) (g : B -> result A) (l : list A) :
  Forall (fun x => g (f x) = Ok x) l -> mapM g (map f l) = Ok l.
Proof.
  induction 1 as [|x l Hx _ IH]; simpl; [reflexivity|].
  now rewrite Hx, IH.
Qed.

Lemma unmarked_not_tagged (fs : list (string * value)) :
  marked fs = false -> tagged_array (VObj fs) = None.
Proof.
  unfold marked, tagged_array, prop.
  destruct (assoc "type" fs) as [[ | | | t | | | | ]|]; try reflexivity.
  now intros ->.
Qed.

Lemma unmarked_not_revived (fs : list (string * value)) :
  marked fs = false -> reviver (VObj fs) = Ok (VObj fs).
Proof.
  unfold marked, reviver, prop.
  destruct (assoc "type" fs) as [[ | | | t | | | | ]|]; try reflexivity.
  now intros ->.
Qed.

(** Decoding the encoding of a portable value gives the value back. *)
Lemma parse_stringify_portable (x : value) :
  portable x = true -> parse (stringify x) = Ok x.
Proof.
  induction x as [ | b | [z|] | s | l IH | fs IH | bs | bs ]
    using value_nested_ind; intros Hp; try reflexivity; try discriminate.
  - cbn [stringify parse portable] in *.
    rewrite mapM_roundtrip; [reflexivity|].
    rewrite forallb_forall in Hp. rewrite Forall_forall in IH |- *.
    intros v Hin. apply IH; [exact Hin|]. apply Hp. now apply list_elem_of_In.
  - cbn [portable] in Hp. apply andb_prop in Hp as [Hm Hfs].
    apply negb_true_iff in Hm.
    cbn [stringify]. rewrite (unmarked_not_tagged fs Hm). cbn [parse].
    rewrite (mapM_roundtrip (fun kv => (fst kv, stringify (snd kv)))
               (fun kv => bind (parse (snd kv)) (fun v => Ok (fst kv, v)))).
    + cbn [bind]. now apply unmarked_not_revived.
    + rewrite forallb_forall in Hfs. rewrite Forall_forall in IH |- *.
      intros [k v] Hin. cbn [fst snd].
      pose proof (IH (k, v) Hin) as Hkv. cbn [fst snd] in Hkv.
      rewrite Hkv; [reflexivity|].
      apply (Hfs (k, v)). now apply list_elem_of_In.
  - cbn. rewrite Buffer_from_array_bytes, fromBase64_toBase64. reflexivity.
Qed.

(** C6 (as amended): decoding the encoding of a nested structure of JSON
    primitives and buffers gives the structure back, with every buffer's
    bytes, provided no plain object in it has a [type] field equal to
    ["Buffer"]. *)
Theorem decode_encode_portable (x : value) :
  portable x = true -> decode (encode x) = Ok x.
Proof.
  unfold decode, encode.
  induction x as [ | b | [z|] | s | l IH | fs IH | bs | bs ]
    using value_nested_ind; intros Hp; try reflexivity; try discriminate.
  - (* array *)
    cbn [stringify parse portable] in *.
    rewrite mapM_roundtrip; [reflexivity|].
    rewrite forallb_forall in Hp. rewrite Forall_forall in IH |- *.
    intros v Hin. apply IH; [exact Hin|]. apply Hp. now apply list_elem_of_In.
  - (* plain object *)
    cbn [portable] in Hp. apply andb_prop in Hp as [Hm Hfs].
    apply negb_true_iff in Hm.
    cbn [stringify]. rewrite (unmarked_not_tagged fs Hm). cbn [parse].
    rewrite (mapM_roundtrip (fun kv => (fst kv, stringify (snd kv)))
               (fun kv => bind (parse (snd kv)) (fun v => Ok (fst kv, v)))).
    + cbn [bind]. now apply unmarked_not_revived.
    + rewrite forallb_forall in Hfs. rewrite Forall_forall in IH |- *.
      intros [k v] Hin. cbn [fst snd].
      pose proof (IH (k, v) Hin) as Hkv. cbn [fst snd] in Hkv.
      rewrite Hkv; [reflexivity|].
      apply (Hfs (k, v)). now apply list_elem_of_In.
  - (* buffer *)
    cbn. rewrite Buffer_from_array_bytes, fromBase64_toBase64. reflexivity.
Qed.

Lemma decode_encode_portable_witness :
  portable (VObj [("hash", VBuffer [x01; x02; x03]); ("version", VNum (Int 7))]) = true
  /\ decode (encode (VObj [("hash", VBuffer [x01; x02; x03]); ("version", VNum (Int 7))]))
     = Ok (VObj [("hash", VBuffer [x01; x02; x03]); ("version", VNum (Int 7))]).
Proof.
  split; [reflexivity|].
  apply (decode_encode_portable
           (VObj [("hash", VBuffer [x01; x02; x03]); ("version", VNum (Int 7))])).
  reflexivity.
Defined.

(** C6 (as stated) fails: a plain object of two strings whose [type] is
    ["Buffer"] is written unchanged and read back as a buffer. *)
Lemma decode_encode_marked_object :
  encode (VObj [("type", VStr "Buffer"); ("data", VStr "AQID")])
  = JObj [("type", JStr "Buffer"); ("data", JStr "AQID")]
  /\ decode (encode (VObj [("type", VStr "Buffer"); ("data", VStr "AQID")]))
     = Ok (VBuffer [x01; x02; x03])
  /\ decode (encode (VObj [("type", VStr "Buffer"); ("data", VStr "AQID")]))
     <> Ok (VObj [("type", VStr "Buffer"); ("data", VStr "AQID")]).
Proof.
  split; [reflexivity|]. split; [reflexivity|].
  vm_compute. discriminate.
Qed.

End JSFacts.

Module TimestampFacts.
Import Outcome JS TimestampUtils.

(** The accepted forms of the specification's examples. *)
Example parseTimestamp_decimal_string :
  parseTimestamp (TsString "1690000000") = Ok (Int 1690000000).
Proof. reflexivity. Qed.

Example parseTimestamp_number :
  parseTimestamp (TsNumber (Int 1690000000)) = Ok (Int 1690000000).
Proof. reflexivity. Qed.

Example parseTimestamp_toNumber :
  parseTimestamp (TsOther "object" true (Some (Int 42)) (Some "42")) = Ok (Int 42).
Proof. reflexivity. Qed.

Example parseTimestamp_not_a_number :
  parseTimestamp (TsString "not-a-number")
  = Throw (SessionValidationError "Invalid timestamp string: not-a-number" None).
Proof. reflexivity. Qed.

(** A string is either parsed to an integer or refused. *)
Lemma parseTimestamp_string (s : string) :
  (exists z, parseTimestamp (TsString s) = Ok (Int z))
  \/ parseTimestamp (TsString s)
     = Throw (SessionValidationError ("Invalid timestamp string: " +:+ s) None).
Proof.
  unfold parseTimestamp. destruct (parseInt s) as [z|]; cbn; eauto.
Qed.

(** A falsy value that is neither a string nor a number is refused, and so
    is a truthy one with neither function. *)
Lemma parseTimestamp_refuses (typeOf : string) (isTruthy : bool)
  (toNumber : option number) (toString : option string) :
  isTruthy = false \/ (toNumber = None /\ toString = None) ->
  parseTimestamp (TsOther typeOf isTruthy toNumber toString)
  = Throw (SessionValidationError ("Unsupported timestamp type: " +:+ typeOf) None).
Proof.
  intros [-> | [-> ->]]; cbn; [reflexivity|]. now destruct isTruthy.
Qed.

(** The arguments for which [NaN] comes back as if it were a timestamp: the
    number [NaN] itself, a [toNumber] that gives it, and a string form
    without a leading integer. *)
Lemma parseTimestamp_NaN (timestamp : timestamp_arg) :
  parseTimestamp timestamp = Ok NaN <->
  timestamp = TsNumber NaN
  \/ (exists typeOf toString, timestamp = TsOther typeOf true (Some NaN) toString)
  \/ (exists typeOf s,
        timestamp = TsOther typeOf true None (Some s) /\ parseInt s = NaN).
Proof.
  split.
  - destruct timestamp as [s|n|typeOf [|] [n|] [s|]]; cbn;
      try discriminate.
    + destruct (parseInt s); cbn; discriminate.
    + intros [= ->]. now left.
    + intros [= ->]. right. left. eauto.
    + intros [= ->]. right. left. eauto.
    + intros [= Hs]. right. right. eauto.
  - intros [-> | [(typeOf & toString & ->) | (typeOf & s & -> & Hs)]];
      cbn; [reflexivity | reflexivity | now rewrite Hs].
Qed.

(** C5: the stringification branch returns what [parseInt] gives without
    the [isNaN] test of the string branch: a plain object, whose string form
    is ["[object Object]"], comes back as [NaN], while the same text passed
    as a string is refused. *)
Theorem parseTimestamp_object_yields_NaN :
  parseTimestamp (TsOther "object" true None (Some "[object Object]")) = Ok NaN
  /\ parseTimestamp (TsString "[object Object]")
     = Throw (SessionValidationError
                "Invalid timestamp string: [object Object]" None).
Proof.
  split.
  - unfold parseTimestamp, parseInt. cbn. reflexivity.
  - unfold parseTimestamp, parseInt. cbn. reflexivity.
Qed.

End TimestampFacts.

Module BootstrapFacts.
Import Outcome Eff JS Base64 Base64Facts Bootstrap.

Lemma byte_value_range (b : byte) : 0 <= byte_value b < 256.
Proof. unfold byte_value. pose proof (to_N_lt b). lia. Qed.

(** The mask keeps the low fourteen bits, and a byte has eight. *)
Lemma makeRegistrationId_cons (b : byte) (rest : list byte) :
  makeRegistrationId (b :: rest) = byte_value b.
Proof.
  unfold makeRegistrationId, Uint16Array_from. cbn [map].
  pose proof (byte_value_range b) as Hb.
  rewrite (Z.mod_small _ 65536) by lia.
  change 16383 with (Z.ones 14).
  rewrite Z.land_ones by lia.
  apply Z.mod_small. change (2 ^ 14) with 16384. lia.
Qed.

Lemma makeRegistrationId_range (random : list byte) :
  0 <= makeRegistrationId random <= 255.
Proof.
  destruct random as [|b rest].
  - change (makeRegistrationId []) with 0. lia.
  - rewrite makeRegistrationId_cons. pose proof (byte_value_range b). lia.
Qed.

Section WithRuntime.
Context {R : Type} `{Runtime R}.

Lemma bindM_Ok {A B : Type} (m : M R A) (k : A -> M R B) (r r' : R) (b : B) :
  bindM m k r = (Ok b, r') ->
  exists a r1, m r = (Ok a, r1) /\ k a r1 = (Ok b, r').
Proof.
  unfold bindM. destruct (m r) as [[a|e] r1]; [eauto|discriminate].
Qed.

Lemma wrap_Ok {A : Type} (message : string) (m : M R A) (r r' : R) (a : A) :
  wrap message m r = (Ok a, r') -> m r = (Ok a, r').
Proof.
  unfold wrap, try_catch, throw. destruct (m r) as [[a'|e] r1]; [auto|discriminate].
Qed.

Lemma draw_Ok {A : Type} (f : R -> A * R) (r r' : R) (a : A) :
  draw f r = (Ok a, r') -> f r = (a, r').
Proof. unfold draw. destruct (f r). now intros [= -> ->]. Qed.

(** The registration id of a bundle is the masked first element read from
    the two random bytes. *)
Lemma initAuthCreds_registrationId (r r' : R) (creds : AuthenticationCreds) :
  initAuthCreds r = (Ok creds, r') ->
  exists r2, registrationId creds = makeRegistrationId (fst (randomBytes 2 r2)).
Proof.
  unfold initAuthCreds. intros Hrun. apply wrap_Ok in Hrun.
  apply bindM_Ok in Hrun as (identityKey & r1 & _ & Hrun).
  apply bindM_Ok in Hrun as (noise & r2 & _ & Hrun).
  apply bindM_Ok in Hrun as (pairing & r3 & _ & Hrun).
  apply bindM_Ok in Hrun as (preKey & r4 & _ & Hrun).
  apply bindM_Ok in Hrun as (random2 & r5 & Hdraw & Hrun).
  apply bindM_Ok in Hrun as (secret & r6 & _ & Hrun).
  apply bindM_Ok in Hrun as (uuid1 & r7 & _ & Hrun).
  apply bindM_Ok in Hrun as (uuid2 & r8 & _ & Hrun).
  apply bindM_Ok in Hrun as (identity & r9 & _ & Hrun).
  apply bindM_Ok in Hrun as (backup & r10 & _ & Hrun).
  unfold ret in Hrun. injection Hrun as <- _.
  exists r4. apply draw_Ok in Hdraw. rewrite Hdraw. reflexivity.
Qed.

(** C9: every bundle the bootstrap returns has its registration id between
    0 and 255. *)
Theorem initAuthCreds_registrationId_byte (r r' : R) (creds : AuthenticationCreds) :
  initAuthCreds r = (Ok creds, r') ->
  0 <= registrationId creds <= 255.
Proof.
  intros Hrun.
  destruct (initAuthCreds_registrationId r r' creds Hrun) as [r2 ->].
  apply makeRegistrationId_range.
Qed.

End WithRuntime.

(** The bootstrap does return a bundle when the collaborators work. *)
Lemma initAuthCreds_runs :
  exists creds r', initAuthCreds (R := N) 0%N = (Ok creds, r')
                   /\ registrationId creds = 4.
Proof. eexists. eexists. split; vm_compute; reflexivity. Qed.

Lemma initAuthCreds_registrationId_byte_witness :
  exists creds r',
    initAuthCreds (R := N) 0%N = (Ok creds, r')
    /\ 0 <= registrationId creds <= 255.
Proof.
  destruct (initAuthCreds (R := N) 0%N) as [[creds|e] r'] eqn:Hrun.
  - exists creds, r'. split; [reflexivity|].
    exact (initAuthCreds_registrationId_byte (R := N) 0%N r' creds Hrun).
  - vm_compute in Hrun. discriminate Hrun.
Defined.

End BootstrapFacts.

Module GatewayFacts.
Import Outcome Eff JS Store Namespace Mongo.
Local Open Scope eff_scope.
Local Open Scope list_scope.

Lemma retry_loop_step {T : Type} (this : Manager) (fuel : nat) (no : Z)
  (last : option error) (op : M World T) (name : string) (w : World) :
  retry_loop this (S fuel) no last op name w
  = match attempt this op w with
    | (Ok a, w1) => (Ok a, w1)
    | (Throw e, w1) =>
        if no <? maxRetries (config this)
        then retry_loop this fuel (no + 1) (Some (toError e)) op name
               (paused this w1)
        else (Throw (exhausted this name (Some (toError e))), w1)
    end.
Proof.
  cbn [retry_loop]. unfold try_catch.
  destruct (attempt this op w) as [[a|e] w1]; [reflexivity|].
  destruct (no <? maxRetries (config this)); reflexivity.
Qed.

Lemma after_failures_step {T : Type} (this : Manager) (op : M World T)
  (k : nat) (w w1 : World) (e : error) :
  attempt this op w = (Throw e, w1) ->
  after_failures this op (S k) w = after_failures this op k (paused this w1).
Proof. intros H. cbn [after_failures]. now rewrite H. Qed.

(** The loop entered at iteration [no] with [n] more to follow: when the
    first [n] attempts fail, the outcome is that of attempt [n + 1]. *)
Lemma retry_loop_last_attempt {T : Type} (this : Manager) (op : M World T)
  (name : string) (n : nat) :
  forall (no : Z) (last : option error) (w : World),
    no + Z.of_nat n = maxRetries (config this) ->
    (forall k, (k < n)%nat ->
       exists e wk, attempt this op (after_failures this op k w) = (Throw e, wk)) ->
    retry_loop this (S n) no last op name w
    = match attempt this op (after_failures this op n w) with
      | (Ok a, w') => (Ok a, w')
      | (Throw e, w') => (Throw (exhausted this name (Some (toError e))), w')
      end.
Proof.
  induction n as [|n IH]; intros no last w Hno Hfail.
  - rewrite retry_loop_step. cbn [after_failures].
    destruct (attempt this op w) as [[a|e] w1]; [reflexivity|].
    replace (no <? maxRetries (config this)) with false; [reflexivity|].
    symmetry. apply Z.ltb_ge. lia.
  - destruct (Hfail 0%nat ltac:(lia)) as (e & w1 & He).
    cbn [after_failures] in He.
    rewrite retry_loop_step, He.
    replace (no <? maxRetries (config this)) with true
      by (symmetry; apply Z.ltb_lt; lia).
    rewrite (after_failures_step this op n w w1 e He).
    apply IH; [lia|].
    intros k Hk. destruct (Hfail (S k) ltac:(lia)) as (e' & wk & Hk').
    rewrite (after_failures_step this op k w w1 e He) in Hk'. eauto.
Qed.

Lemma retry_loop_traced_step {T : Type} (this : Manager) (fuel : nat) (no : Z)
  (last : option error) (op : M World T) (name : string) (w : World) :
  retry_loop_traced this (S fuel) no last op name w
  = match attempt this op w with
    | (Ok a, w1) => ((Ok a, w1), (1%nat, []))
    | (Throw e, w1) =>
        if no <? maxRetries (config this) then
          let '(out, (attempts, delays)) :=
            retry_loop_traced this fuel (no + 1) (Some (toError e)) op name
              (paused this w1) in
          (out, (S attempts, retryRequestDelayMs (config this) :: delays))
        else ((Throw (exhausted this name (Some (toError e))), w1), (1%nat, []))
    end.
Proof. reflexivity. Qed.

(** The traced loop has the outcome of the loop. *)
Lemma retry_loop_traced_outcome {T : Type} (this : Manager) (op : M World T)
  (name : string) (fuel : nat) :
  forall (no : Z) (last : option error) (w : World),
    fst (retry_loop_traced this fuel no last op name w)
    = retry_loop this fuel no last op name w.
Proof.
  induction fuel as [|fuel IH]; intros no last w; [reflexivity|].
  rewrite retry_loop_step, retry_loop_traced_step.
  destruct (attempt this op w) as [[a|e] w1]; [reflexivity|].
  destruct (no <? maxRetries (config this)); [|reflexivity].
  specialize (IH (no + 1) (Some (toError e)) (paused this w1)).
  destruct (retry_loop_traced this fuel (no + 1) (Some (toError e)) op name
              (paused this w1)) as [out [attempts delays]].
  exact IH.
Qed.

(** When the first [n] of [n + 1] attempts fail, the loop makes [n + 1]
    attempts and takes [n] pauses of the configured length. *)
Lemma retry_loop_traced_report {T : Type} (this : Manager) (op : M World T)
  (name : string) (n : nat) :
  forall (no : Z) (last : option error) (w : World),
    no + Z.of_nat n = maxRetries (config this) ->
    (forall k, (k < n)%nat ->
       exists e wk, attempt this op (after_failures this op k w) = (Throw e, wk)) ->
    snd (retry_loop_traced this (S n) no last op name w)
    = (S n, replicate n (retryRequestDelayMs (config this))).
Proof.
  induction n as [|n IH]; intros no last w Hno Hfail.
  - rewrite retry_loop_traced_step.
    destruct (attempt this op w) as [[a|e] w1]; [reflexivity|].
    replace (no <? maxRetries (config this)) with false; [reflexivity|].
    symmetry. apply Z.ltb_ge. lia.
  - destruct (Hfail 0%nat ltac:(lia)) as (e & w1 & He).
    cbn [after_failures] in He.
    rewrite retry_loop_traced_step, He.
    replace (no <? maxRetries (config this)) with true
      by (symmetry; apply Z.ltb_lt; lia).
    specialize (IH (no + 1) (Some (toError e)) (paused this w1)).
    destruct (retry_loop_traced this (S n) (no + 1) (Some (toError e)) op name
                (paused this w1)) as [out [attempts delays]].
    cbn [snd] in IH |- *.
    assert (Hrest : (attempts, delays)
                    = (S n, replicate n (retryRequestDelayMs (config this)))).
    { apply IH; [lia|].
      intros k Hk. destruct (Hfail (S k) ltac:(lia)) as (e' & wk & Hk').
      rewrite (after_failures_step this op k w w1 e He) in Hk'. eauto. }
    injection Hrest as -> ->. reflexivity.
Qed.

(** C3: with [maxRetries = n + 1] and the first [n] attempts failing, the
    gateway makes exactly [n + 1] attempts, with exactly one pause of
    [retryRequestDelayMs] between consecutive attempts; the last attempt
    starts in the world reached through those failures and pauses, and the
    gateway
    - returns what that attempt returns, in the world it leaves, when it
      succeeds;
    - raises [MongoConnectionError] when it fails, with the operation name
      and the number of attempts in the message and the last failure as
      [originalError]. *)
Theorem executeWithRetry_last_attempt {T : Type} (this : Manager)
  (operation : M World T) (operationName : string) (n : nat) (w : World) :
  maxRetries (config this) = Z.of_nat (S n) ->
  (forall k, (k < n)%nat ->
     exists e wk,
       attempt this operation (after_failures this operation k w) = (Throw e, wk)) ->
  executeWithRetry_traced this operation operationName w
  = (executeWithRetry this operation operationName w,
     (S n, replicate n (retryRequestDelayMs (config this))))
  /\ (forall a w',
        attempt this operation (after_failures this operation n w) = (Ok a, w') ->
        executeWithRetry this operation operationName w = (Ok a, w'))
  /\ (forall e w',
        attempt this operation (after_failures this operation n w) = (Throw e, w') ->
        executeWithRetry this operation operationName w
        = (Throw (MongoConnectionError
                    (operationName +:+ " failed after " +:+ pretty (Z.of_nat (S n))
                       +:+ " attempts")
                    (Some (toError e))), w')).
Proof.
  intros Hmax Hfail.
  assert (Hrun :
    executeWithRetry this operation operationName w
    = match attempt this operation (after_failures this operation n w) with
      | (Ok a, w') => (Ok a, w')
      | (Throw e, w') =>
          (Throw (exhausted this operationName (Some (toError e))), w')
      end).
  { unfold executeWithRetry. rewrite Hmax, Nat2Z.id.
    apply retry_loop_last_attempt; [lia | exact Hfail]. }
  split; [|split].
  - unfold executeWithRetry_traced, executeWithRetry. rewrite Hmax, Nat2Z.id.
    rewrite (surjective_pairing (retry_loop_traced _ _ _ _ _ _ _)).
    rewrite retry_loop_traced_outcome.
    rewrite retry_loop_traced_report; [reflexivity | lia | exact Hfail].
  - intros a w' Hlast. now rewrite Hrun, Hlast.
  - intros e w' Hlast. rewrite Hrun, Hlast.
    unfold exhausted. now rewrite Hmax.
Qed.

(** The same theorem on a point read: two planned failures, then success;
    and three planned failures. *)
Lemma executeWithRetry_last_attempt_witness :
  (fst (fst (executeWithRetry_traced Samples.main3 (findById "main-k")
               "Query document k"
               (Samples.connected ∅ [Fails Samples.timeout; Fails Samples.timeout])))
   = Ok None
   /\ snd (executeWithRetry_traced Samples.main3 (findById "main-k")
             "Query document k"
             (Samples.connected ∅ [Fails Samples.timeout; Fails Samples.timeout]))
      = (3%nat, [200; 200]))
  /\ fst (executeWithRetry Samples.main3 (findById "main-k") "Query document k"
            (Samples.connected ∅
               [Fails Samples.timeout; Fails Samples.timeout;
                Fails (Thrown "socket closed")]))
     = Throw (MongoConnectionError "Query document k failed after 3 attempts"
                (Some (EngineError "Error" "socket closed"))).
Proof.
  split.
  - destruct (executeWithRetry_last_attempt Samples.main3 (findById "main-k")
                "Query document k" 2
                (Samples.connected ∅ [Fails Samples.timeout; Fails Samples.timeout])
                eq_refl) as (Htraced & Hok & _).
    + intros [|[|k]] Hk; [| | lia];
        eexists; eexists; vm_compute; reflexivity.
    + rewrite Htraced. cbn [fst snd]. split; [|reflexivity].
      erewrite Hok; [|vm_compute; reflexivity]. reflexivity.
  - destruct (executeWithRetry_last_attempt Samples.main3 (findById "main-k")
                "Query document k" 2
                (Samples.connected ∅
                   [Fails Samples.timeout; Fails Samples.timeout;
                    Fails (Thrown "socket closed")])
                eq_refl) as (_ & _ & Hthrow).
    + intros [|[|k]] Hk; [| | lia];
        eexists; eexists; vm_compute; reflexivity.
    + erewrite Hthrow; [|vm_compute; reflexivity]. vm_compute. reflexivity.
Defined.

(** What the log shows of such a run: three calls, a pause of the
    configured length between consecutive ones, none after the last. *)
Example executeWithRetry_log :
  log (snd (executeWithRetry Samples.main3 (findById "main-k") "Query document k"
              (Samples.connected ∅ [Fails Samples.timeout; Fails Samples.timeout])))
  = [EvFindById "main-k"; EvSleep 200; EvFindById "main-k"; EvSleep 200;
     EvFindById "main-k"].
Proof. vm_compute. reflexivity. Qed.

Lemma pauses_app (l1 l2 : list event) : pauses (l1 ++ l2) = pauses l1 ++ pauses l2.
Proof. unfold pauses. apply omap_app. Qed.

Lemma driver_log (ev : event) (w : World) :
  log (snd (driver ev w)) = log w ++ [ev].
Proof.
  unfold driver. destruct (plans w) as [|[|e|e] rest]; reflexivity.
Qed.

Lemma ensureConnection_pauses (this : Manager) (w : World) :
  pauses (log (snd (ensureConnection this w))) = pauses (log w).
Proof.
  unfold ensureConnection.
  destruct (isConnected w && (readyState w =? 1)); [reflexivity|].
  unfold try_catch, connect, bindM.
  pose proof (driver_log (EvConnect (mongoURI this)) w) as Hlog.
  destruct (driver (EvConnect (mongoURI this)) w) as [[[]|e] w1];
    cbn in Hlog |- *; rewrite Hlog, pauses_app, app_nil_r; reflexivity.
Qed.

(** The pauses between attempts all have the configured length: after [k]
    failed attempts of an operation that does not pause itself, the log has
    [k] more pauses of [retryRequestDelayMs]. *)
Lemma after_failures_pauses {T : Type} (this : Manager) (op : M World T) :
  (forall w, pauses (log (snd (op w))) = pauses (log w)) ->
  forall k w,
    pauses (log (after_failures this op k w))
    = pauses (log w) ++ replicate k (retryRequestDelayMs (config this)).
Proof.
  intros Hop. induction k as [|k IH]; intros w.
  - cbn. now rewrite app_nil_r.
  - cbn [after_failures]. rewrite IH.
    unfold paused, record_event. cbn [log]. rewrite pauses_app.
    assert (Hatt : pauses (log (snd (attempt this op w))) = pauses (log w)).
    { unfold attempt, bindM.
      pose proof (ensureConnection_pauses this w) as Hc.
      destruct (ensureConnection this w) as [[[]|e] w1]; cbn in Hc |- *.
      - now rewrite Hop.
      - exact Hc. }
    rewrite Hatt, <- app_assoc. reflexivity.
Qed.

End GatewayFacts.

Module StoreFacts.
Import Outcome Eff JS Store Namespace Mongo GatewayFacts.
Local Open Scope eff_scope.
Local Open Scope list_scope.

Lemma driver_db (ev : event) (w : World) : db (snd (driver ev w)) = db w.
Proof.
  unfold driver. destruct (plans w) as [|[|e|e] rest]; reflexivity.
Qed.

Lemma driver_plain (ev : event) (w : World) :
  plans w = [] -> driver ev w = (Ok tt, record_event ev w).
Proof. unfold driver. now intros ->. Qed.

Lemma ensureConnection_db (this : Manager) (w : World) :
  db (snd (ensureConnection this w)) = db w.
Proof.
  unfold ensureConnection.
  destruct (isConnected w && (readyState w =? 1)); [reflexivity|].
  unfold try_catch, connect, bindM.
  pose proof (driver_db (EvConnect (mongoURI this)) w) as Hdb.
  destruct (driver (EvConnect (mongoURI this)) w) as [[[]|e] w1]; exact Hdb.
Qed.

(** Without a planned failure the connection is there after
    [ensureConnection], and nothing else has changed but the log. *)
Lemma ensureConnection_plain (this : Manager) (w : World) :
  plans w = [] ->
  exists w1, ensureConnection this w = (Ok tt, w1)
             /\ db w1 = db w /\ plans w1 = [].
Proof.
  intros Hplain. unfold ensureConnection.
  destruct (isConnected w && (readyState w =? 1)).
  - exists w. auto.
  - unfold try_catch, connect, bindM. rewrite (driver_plain _ _ Hplain).
    cbn. eexists. split; [reflexivity|]. cbn. auto.
Qed.

Lemma attempt_meets {T : Type} (this : Manager)
  (Q : gmap string document -> T -> gmap string document -> Prop)
  (op : M World T) :
  meets Q op -> meets Q (attempt this op).
Proof.
  intros Hop w. unfold attempt, bindM.
  pose proof (ensureConnection_db this w) as Hdb.
  destruct (ensureConnection this w) as [[[]|e] w1]; cbn in Hdb.
  - specialize (Hop w1). rewrite Hdb in Hop. exact Hop.
  - exact Hdb.
Qed.

Lemma retry_loop_meets {T : Type} (this : Manager)
  (Q : gmap string document -> T -> gmap string document -> Prop)
  (op : M World T) (name : string) :
  meets Q op ->
  forall fuel no last, meets Q (retry_loop this fuel no last op name).
Proof.
  intros Hop. induction fuel as [|fuel IH]; intros no last w.
  - reflexivity.
  - rewrite retry_loop_step.
    pose proof (attempt_meets this Q op Hop w) as Hatt.
    destruct (attempt this op w) as [[a|e] w1]; [exact Hatt|].
    destruct (no <? maxRetries (config this)); [|exact Hatt].
    specialize (IH (no + 1) (Some (toError e)) (paused this w1)).
    change (db (paused this w1)) with (db w1) in IH.
    rewrite Hatt in IH. exact IH.
Qed.

(** The gateway changes the collection as one successful run of the
    operation does, or not at all. *)
Lemma executeWithRetry_meets {T : Type} (this : Manager)
  (Q : gmap string document -> T -> gmap string document -> Prop)
  (op : M World T) (name : string) :
  meets Q op -> meets Q (executeWithRetry this op name).
Proof. intros Hop. now apply retry_loop_meets. Qed.

(** A driver call followed by a step that cannot fail: case analysis on the
    outcome of the call, which leaves the collection alone. *)
Ltac driver_cases ev w :=
  let Hdb := fresh "Hdb" in
  unfold bindM;
  pose proof (driver_db ev w) as Hdb;
  destruct (driver ev w) as [[[]|?] ?]; cbn in Hdb |- *;
  [now rewrite Hdb | exact Hdb].

Lemma findById_meets (id : string) :
  meets (fun before found after => found = before !! id /\ after = before)
        (findById id).
Proof. intros w. unfold findById. driver_cases (EvFindById id) w. Qed.

Lemma updateOne_meets (id : string) (doc : document) :
  meets (fun before _ after => after = <[id := doc]> before) (updateOne id doc).
Proof. intros w. unfold updateOne. driver_cases (EvUpdateOne id) w. Qed.

Lemma deleteOne_meets (id : string) :
  meets (fun before _ after => after = delete id before) (deleteOne id).
Proof. intros w. unfold deleteOne. driver_cases (EvDeleteOne id) w. Qed.

Lemma deleteMany_meets (session : string) (except : option string) :
  meets (fun before _ after => after = filter (kept session except) before)
        (deleteMany session except).
Proof.
  intros w. unfold deleteMany. driver_cases (EvDeleteMany session except) w.
Qed.

(** A sweep leaves of each record what [swept] says. *)
Lemma lookup_sweep (session : string) (except : option string)
  (records : gmap string document) (id : string) :
  filter (kept session except) records !! id
  = swept session except id (records !! id).
Proof.
  rewrite map_lookup_filter. unfold swept, kept.
  destruct (records !! id) as [d|]; cbn; [|reflexivity].
  case_guard; case_bool_decide; cbn in *; tauto || reflexivity.
Qed.

(** An attempt that succeeds at once is all the gateway does. *)
Lemma executeWithRetry_first_try {T : Type} (this : Manager) (op : M World T)
  (name : string) (w w' : World) (a : T) :
  0 < maxRetries (config this) ->
  attempt this op w = (Ok a, w') ->
  executeWithRetry this op name w = (Ok a, w').
Proof.
  intros Hmax Hatt. unfold executeWithRetry.
  destruct (Z.to_nat (maxRetries (config this))) as [|fuel] eqn:Hfuel; [lia|].
  now rewrite retry_loop_step, Hatt.
Qed.

Lemma deleteMany_plain (this : Manager) (session : string)
  (except : option string) (name : string) (w : World) :
  plans w = [] -> 0 < maxRetries (config this) ->
  fst (executeWithRetry this (deleteMany session except) name w) = Ok tt.
Proof.
  intros Hplain Hmax.
  destruct (ensureConnection_plain this w Hplain) as (w1 & Hc & _ & Hp1).
  erewrite executeWithRetry_first_try; [reflexivity | exact Hmax |].
  unfold attempt, bindM. rewrite Hc.
  unfold deleteMany, bindM. rewrite (driver_plain _ _ Hp1). reflexivity.
Qed.

(** C8: when [clearSessionData] returns, every record of the configured
    session other than the credentials record (its id is the session, a
    hyphen and ["creds"]) is gone and every other record is as before; when
    [removeAllSessionData] returns, every record of the configured session
    is gone and every other record is as before.  Both return when the
    driver does not fail and at least one attempt is allowed. *)
Theorem clear_and_removeAll_sweep (this : Manager) (w : World) :
  match clearSessionData this w with
  | (Ok _, w') =>
      forall id,
        db w' !! id
        = swept (session (config this))
                (Some (credsId (session (config this)))) id (db w !! id)
  | (Throw _, _) => True
  end
  /\ match removeAllSessionData this w with
     | (Ok _, w') =>
         forall id,
           db w' !! id = swept (session (config this)) None id (db w !! id)
     | (Throw _, _) => True
     end
  /\ (plans w = [] -> 0 < maxRetries (config this) ->
      fst (clearSessionData this w) = Ok tt
      /\ fst (removeAllSessionData this w) = Ok tt).
Proof.
  split; [|split].
  - pose proof (executeWithRetry_meets this _ _ "Clear session data"
                  (deleteMany_meets (session (config this))
                     (Some (sessionPrefix this +:+ "creds"))) w) as Hrun.
    unfold clearSessionData.
    destruct (executeWithRetry this _ "Clear session data" w) as [[[]|e] w'];
      [|exact I].
    intros id. rewrite Hrun. apply lookup_sweep.
  - pose proof (executeWithRetry_meets this _ _ "Remove all session data"
                  (deleteMany_meets (session (config this)) None) w) as Hrun.
    unfold removeAllSessionData.
    destruct (executeWithRetry this _ "Remove all session data" w)
      as [[[]|e] w']; [|exact I].
    intros id. rewrite Hrun. apply lookup_sweep.
  - intros Hplain Hmax. split; now apply deleteMany_plain.
Qed.

(** What the sweeps spare, spelled out: the credentials record and the
    records of other sessions stay as they are, the other records of the
    session go. *)
Lemma swept_cases (session : string) (id : string) (d : document) :
  swept session (Some (credsId session)) (credsId session) (Some d) = Some d
  /\ (doc_session d <> session ->
      swept session (Some (credsId session)) id (Some d) = Some d
      /\ swept session None id (Some d) = Some d)
  /\ (doc_session d = session ->
      (id <> credsId session ->
       swept session (Some (credsId session)) id (Some d) = None)
      /\ swept session None id (Some d) = None).
Proof.
  unfold swept. repeat split.
  - rewrite bool_decide_eq_false_2; [reflexivity|]. intros [_ Hne]. now apply Hne.
  - rewrite bool_decide_eq_false_2; [reflexivity|]. intros [Hs _]. contradiction.
  - rewrite bool_decide_eq_false_2; [reflexivity|]. intros [Hs _]. contradiction.
  - intros Hid. rewrite bool_decide_eq_true_2; [reflexivity|].
    split; [assumption|]. intros [= Heq]. contradiction.
  - rewrite bool_decide_eq_true_2; [reflexivity|]. split; [assumption|discriminate].
Qed.

(** The sweeps on records of two sessions. *)
Example clearSessionData_two_sessions :
  dom (db (snd (clearSessionData Samples.main3
                  (Samples.connected Samples.two_sessions []))))
  = {[ "main-creds"; "other-creds"; "other-pre-key-1" ]}.
Proof. vm_compute. reflexivity. Qed.

Example removeAllSessionData_two_sessions :
  dom (db (snd (removeAllSessionData Samples.main3
                  (Samples.connected Samples.two_sessions []))))
  = {[ "other-creds"; "other-pre-key-1" ]}.
Proof. vm_compute. reflexivity. Qed.

End StoreFacts.

Module KeyStoreFacts.
Import Outcome Eff JS Store Namespace Mongo AppDataSync.
Import GatewayFacts StoreFacts JSFacts.
Local Open Scope eff_scope.
Local Open Scope list_scope.

(** The record a key store operation touches is the one under the resolved
    storage key. *)
Lemma storage_key (this : Manager) (type : category) (id : string) :
  sessionPrefix this +:+ dataKey type id
  = resolve (session (config this)) type id.
Proof. reflexivity. Qed.

Lemma try_catch_rethrow {S A : Type} (m : M S A) (s : S) :
  try_catch m (fun e => throw e) s = m s.
Proof. unfold try_catch, throw. now destruct (m s) as [[a|e] s']. Qed.

Lemma bind_unit {S : Type} (m : M S unit) (s : S) :
  (m ;;; ret tt) s = m s.
Proof. unfold bindM, ret. now destruct (m s) as [[[]|e] s']. Qed.

(** [readData] returns what is stored under the key, decoded, and leaves
    the collection alone. *)
Lemma readData_outcome (this : Manager) (id : string) (w : World) :
  match readData this id w with
  | (Ok v, w') =>
      stored_value (db w !! (sessionPrefix this +:+ id)) = Ok v /\ db w' = db w
  | (Throw _, w') => db w' = db w
  end.
Proof.
  unfold readData, try_catch, bindM, queryDocument.
  pose proof (executeWithRetry_meets this _ _ ("Query document " +:+ id)
                (findById_meets (sessionPrefix this +:+ id)) w) as Hq.
  destruct (executeWithRetry this _ ("Query document " +:+ id) w)
    as [[found|e] w1].
  - destruct Hq as [-> Hdb]. unfold stored_value.
    destruct (db w !! (sessionPrefix this +:+ id)) as [d|]; [|now split].
    destruct (doc_value d) as [doc|text| |doc]; cbn.
    + unfold lift. destruct (parse doc) as [v|e]; [now split|].
      now destruct (isMongoConnectionError e).
    + exact Hdb.
    + now split.
    + unfold lift. destruct (parse doc) as [v|e]; [now split|].
      now destruct (isMongoConnectionError e).
  - now destruct (isMongoConnectionError e).
Qed.

Lemma writeData_outcome (this : Manager) (id : string) (v : value) (w : World) :
  match writeData this id v w with
  | (Ok _, w') =>
      db w' = <[sessionPrefix this +:+ id :=
                  {| doc_value := PText (stringify v);
                     doc_session := session (config this) |}]> (db w)
  | (Throw _, w') => db w' = db w
  end.
Proof.
  unfold writeData.
  exact (executeWithRetry_meets this _ _ ("Write data " +:+ id)
           (updateOne_meets _ _) w).
Qed.

Lemma removeData_outcome (this : Manager) (id : string) (w : World) :
  match removeData this id w with
  | (Ok _, w') => db w' = delete (sessionPrefix this +:+ id) (db w)
  | (Throw _, w') => db w' = db w
  end.
Proof.
  unfold removeData.
  exact (executeWithRetry_meets this _ _ ("Remove data " +:+ id)
           (deleteOne_meets _) w).
Qed.

Lemma get_one_fetch (this : Manager) (type : category) (id : string)
  (data : gmap string value) (w : World) :
  get_one this type id data w
  = match fetch this type id w with
    | (Ok v, w') => (Ok (<[id := v]> data), w')
    | (Throw _, w') => (Ok (<[id := VNull]> data), w')
    end.
Proof.
  unfold get_one, try_catch, bindM, ret.
  now destruct (fetch this type id w) as [[v|e] w'].
Qed.

Lemma get_single (this : Manager) (type : category) (id : string) (w : World) :
  get this type [id] w
  = match fetch this type id w with
    | (Ok v, w') => (Ok {[id := v]}, w')
    | (Throw _, w') => (Ok {[id := VNull]}, w')
    end.
Proof.
  unfold get. cbn [get_from]. unfold bindM at 1. rewrite get_one_fetch.
  destruct (fetch this type id w) as [[v|e] w']; cbn;
    now rewrite insert_empty.
Qed.

(** Fetching a key that has no record gives [null], if it gives a value. *)
Lemma fetch_missing (this : Manager) (type : category) (id : string) (w : World) :
  db w !! resolve (session (config this)) type id = None ->
  match fetch this type id w with
  | (Ok v, _) => v = VNull
  | (Throw _, _) => True
  end.
Proof.
  intros Hnone. unfold fetch, bindM.
  pose proof (readData_outcome this (dataKey type id) w) as Hread.
  rewrite storage_key, Hnone in Hread.
  destruct (readData this (dataKey type id) w) as [[v|e] w1]; [|exact I].
  destruct Hread as [[= <-] _]. cbn [truthy]. rewrite andb_false_r. reflexivity.
Qed.

Lemma get_missing (this : Manager) (type : category) (id : string) (w : World) :
  db w !! resolve (session (config this)) type id = None ->
  fst (get this type [id] w) = Ok {[id := VNull]}.
Proof.
  intros Hnone. rewrite get_single.
  pose proof (fetch_missing this type id w Hnone) as Hf.
  destruct (fetch this type id w) as [[v|e] w']; cbn; [now subst|reflexivity].
Qed.

(** In particular nothing is found in a store that holds no record. *)
Lemma get_empty_store (this : Manager) (type : category) (id : string) (w : World) :
  db w = ∅ -> fst (get this type [id] w) = Ok {[id := VNull]}.
Proof. intros Hempty. apply get_missing. rewrite Hempty. apply lookup_empty. Qed.

Lemma set_single (this : Manager) (type : category) (id : string) (v : value)
  (w : World) :
  set this [(type, Some [(id, v)])] w
  = (if truthy v then writeData this (dataKey type id) v
     else removeData this (dataKey type id)) w.
Proof.
  cbn [set set_ids]. rewrite bind_unit, bind_unit.
  unfold set_one. apply try_catch_rethrow.
Qed.

Lemma removeData_plain (this : Manager) (id : string) (w : World) :
  plans w = [] -> 0 < maxRetries (config this) ->
  exists w', removeData this id w = (Ok tt, w') /\ plans w' = [].
Proof.
  intros Hplain Hmax.
  destruct (ensureConnection_plain this w Hplain) as (w1 & Hc & _ & Hp1).
  eexists. split.
  - unfold removeData. apply executeWithRetry_first_try; [exact Hmax|].
    unfold attempt, bindM. rewrite Hc.
    unfold deleteOne, bindM. rewrite (driver_plain _ _ Hp1). reflexivity.
  - cbn. exact Hp1.
Qed.

(** C7 (as amended): reading a key under which nothing is stored answers
    with the map from the id to [null], an answer and not an exception,
    whatever the driver does meanwhile; so does reading a key after a [set]
    of [null] for it has returned; and such a [set] does return when the
    driver does not fail and at least one attempt is allowed. *)
Theorem absent_key_reads_null (this : Manager) (type : category) (id : string)
  (w : World) :
  (db w !! resolve (session (config this)) type id = None ->
   fst (get this type [id] w) = Ok {[id := VNull]})
  /\ (forall w1,
        set this [(type, Some [(id, VNull)])] w = (Ok tt, w1) ->
        fst (get this type [id] w1) = Ok {[id := VNull]})
  /\ (plans w = [] -> 0 < maxRetries (config this) ->
      fst (set this [(type, Some [(id, VNull)])] w) = Ok tt).
Proof.
  split; [|split].
  - apply get_missing.
  - intros w1 Hset. apply get_missing.
    rewrite set_single in Hset. cbn [truthy] in Hset.
    pose proof (removeData_outcome this (dataKey type id) w) as Hrm.
    rewrite Hset in Hrm. rewrite Hrm, <- storage_key.
    apply lookup_delete_eq.
  - intros Hplain Hmax. rewrite set_single. cbn [truthy].
    destruct (removeData_plain this (dataKey type id) w Hplain Hmax)
      as (w' & -> & _).
    reflexivity.
Qed.

(** C7 (as stated) fails where two triples share a storage key: after a
    [set] for id ["memory-x"] of category sender-key on an empty store, the
    id ["x"] of category sender-key-memory, never written, is answered with
    the value stored for the other. *)
Lemma get_unwritten_id_sharing_a_key :
  (SenderKeyMemory, "x") <> (SenderKey, "memory-x")
  /\ fst (serve_all Samples.main3
            [ReqSet [(SenderKey, Some [("memory-x", VBuffer [x01; x02; x03])])];
             ReqGet SenderKeyMemory ["x"]]
            Samples.fresh)
     = [Ok Done; Ok (Values {["x" := VBuffer [x01; x02; x03]]})]
  /\ ({["x" := VBuffer [x01; x02; x03]]} : gmap string value) !! "x" <> Some VNull.
Proof.
  split; [discriminate|]. split; [vm_compute; reflexivity|].
  rewrite lookup_singleton_eq. discriminate.
Qed.

Lemma absent_key_reads_null_witness :
  fst (get Samples.main3 PreKey ["7"] (Samples.connected Samples.two_sessions []))
  = Ok {["7" := VNull]}
  /\ fst (get Samples.main3 PreKey ["1"]
            (snd (set Samples.main3 [(PreKey, Some [("1", VNull)])]
                    (Samples.connected Samples.two_sessions []))))
     = Ok {["1" := VNull]}.
Proof.
  split.
  - apply (proj1 (absent_key_reads_null Samples.main3 PreKey "7"
                    (Samples.connected Samples.two_sessions []))).
    vm_compute. reflexivity.
  - apply (proj1 (proj2 (absent_key_reads_null Samples.main3 PreKey "1"
                           (Samples.connected Samples.two_sessions [])))).
    vm_compute. reflexivity.
Defined.

Lemma get_from_app (this : Manager) (type : category) (pre post : list string) :
  forall data w,
    get_from this type (pre ++ post) data w
    = match get_from this type pre data w with
      | (Ok data1, w1) => get_from this type post data1 w1
      | (Throw e, w1) => (Throw e, w1)
      end.
Proof.
  induction pre as [|id pre IH]; intros data w; [reflexivity|].
  cbn [app get_from]. unfold bindM.
  destruct (get_one this type id data w) as [[data1|e] w1]; [apply IH|reflexivity].
Qed.

(** [keys.get] always answers, with an entry for every id asked for. *)
Lemma get_from_total (this : Manager) (type : category) (ids : list string) :
  forall data w,
    exists data' w',
      get_from this type ids data w = (Ok data', w')
      /\ (forall id, id ∈ ids -> is_Some (data' !! id))
      /\ (forall id, id ∉ ids -> data' !! id = data !! id).
Proof.
  induction ids as [|id ids IH]; intros data w.
  - exists data, w. split; [reflexivity|]. split; [|reflexivity].
    intros id Hin. now apply elem_of_nil in Hin.
  - cbn [get_from]. unfold bindM. rewrite get_one_fetch.
    assert (Hone : exists v w1,
               match fetch this type id w with
               | (Ok v, w') => (Ok (<[id := v]> data), w')
               | (Throw _, w') => (Ok (<[id := VNull]> data), w')
               end = (Ok (<[id := v]> data), w1)).
    { destruct (fetch this type id w) as [[v|e] w1]; eauto. }
    destruct Hone as (v & w1 & ->).
    destruct (IH (<[id := v]> data) w1) as (data' & w' & Hrun & Hin & Hout).
    exists data', w'. split; [exact Hrun|]. split.
    + intros id' Hid'. destruct (decide (id' ∈ ids)) as [Hrest|Hrest].
      * now apply Hin.
      * apply elem_of_cons in Hid' as [->|Hid']; [|contradiction].
        rewrite (Hout id Hrest), lookup_insert_eq. eauto.
    + intros id' Hid'. apply not_elem_of_cons in Hid' as [Hne Hrest].
      rewrite (Hout id' Hrest). now apply lookup_insert_ne.
Qed.

Lemma set_ids_app (this : Manager) (type : category)
  (pre post : list (string * value)) :
  forall w,
    set_ids this type (pre ++ post) w
    = match set_ids this type pre w with
      | (Ok _, w1) => set_ids this type post w1
      | (Throw e, w1) => (Throw e, w1)
      end.
Proof.
  induction pre as [|[id v] pre IH]; intros w; [reflexivity|].
  cbn [app set_ids]. unfold bindM.
  destruct (set_one this type id v w) as [[[]|e] w1]; [apply IH|reflexivity].
Qed.

Lemma set_app (this : Manager)
  (before after : list (category * option (list (string * value)))) :
  forall w,
    set this (before ++ after) w
    = match set this before w with
      | (Ok _, w1) => set this after w1
      | (Throw e, w1) => (Throw e, w1)
      end.
Proof.
  induction before as [|[type entries] before IH]; intros w; [reflexivity|].
  cbn [app set]. unfold bindM.
  destruct (match entries with
            | Some entries0 => set_ids this type entries0
            | None => ret tt
            end w) as [[[]|e] w1]; [apply IH|reflexivity].
Qed.

(** A failed read is a failed fetch, with the same error. *)
Lemma fetch_read_failure (this : Manager) (type : category) (id : string)
  (w w' : World) (e : error) :
  readData this (dataKey type id) w = (Throw e, w') ->
  fetch this type id w = (Throw e, w').
Proof. intros Hread. unfold fetch, bindM. now rewrite Hread. Qed.

(** C4 (as amended): in [keys.get], when fetching one id throws, that id is
    entered as [null] and the ids after it are fetched from the world the
    failure left; the call answers with an entry for each of them, and with
    [null] for the id unless it occurs again among them.  In [keys.set],
    when the write or delete of one entry throws, the call throws the same
    error in the world the failure left: no later entry is touched. *)
Theorem get_isolates_set_aborts (this : Manager) :
  (forall type pre id post w data1 w1 e w2,
     get_from this type pre ∅ w = (Ok data1, w1) ->
     fetch this type id w1 = (Throw e, w2) ->
     get this type (pre ++ id :: post) w
     = get_from this type post (<[id := VNull]> data1) w2
     /\ exists data w',
          get this type (pre ++ id :: post) w = (Ok data, w')
          /\ (forall id', id' ∈ post -> is_Some (data !! id'))
          /\ (id ∉ post -> data !! id = Some VNull))
  /\ (forall before type pre id v post after w w0 w1 e w2,
        set this before w = (Ok tt, w0) ->
        set_ids this type pre w0 = (Ok tt, w1) ->
        (if truthy v then writeData this (dataKey type id) v
         else removeData this (dataKey type id)) w1 = (Throw e, w2) ->
        set this (before ++ (type, Some (pre ++ (id, v) :: post)) :: after) w
        = (Throw e, w2)).
Proof.
  split.
  - intros type pre id post w data1 w1 e w2 Hpre Hfetch.
    assert (Hrun : get this type (pre ++ id :: post) w
                   = get_from this type post (<[id := VNull]> data1) w2).
    { unfold get. rewrite get_from_app, Hpre. cbn [get_from].
      unfold bindM at 1. now rewrite get_one_fetch, Hfetch. }
    split; [exact Hrun|].
    destruct (get_from_total this type post (<[id := VNull]> data1) w2)
      as (data & w' & Hpost & Hin & Hout).
    exists data, w'. rewrite Hrun. split; [exact Hpost|]. split; [exact Hin|].
    intros Hfresh. rewrite (Hout id Hfresh). apply lookup_insert_eq.
  - intros before type pre id v post after w w0 w1 e w2 Hbefore Hpre Hfail.
    rewrite set_app, Hbefore. cbn [set]. unfold bindM at 1.
    rewrite set_ids_app, Hpre. cbn [set_ids]. unfold bindM at 1.
    unfold set_one. rewrite try_catch_rethrow, Hfail. reflexivity.
Qed.

(** C4 (as stated) fails on a list that names an id twice: the first read
    of the id fails on all three attempts, the second read of the same id
    succeeds, and the id is answered with the stored value, not with
    [null]. *)
Lemma get_repeated_id_read_again :
  fst (readData Samples.main3 (dataKey PreKey "1")
         (Samples.connected Samples.two_sessions
            [Fails Samples.timeout; Fails Samples.timeout; Fails Samples.timeout]))
  = Throw (MongoConnectionError "Query document pre-key-1 failed after 3 attempts"
             (Some Samples.timeout))
  /\ fst (get Samples.main3 PreKey ["1"; "1"]
            (Samples.connected Samples.two_sessions
               [Fails Samples.timeout; Fails Samples.timeout; Fails Samples.timeout]))
     = Ok {["1" := VNum (Int 1)]}
  /\ ({["1" := VNum (Int 1)]} : gmap string value) !! "1" <> Some VNull.
Proof.
  split; [vm_compute; reflexivity|]. split; [vm_compute; reflexivity|].
  rewrite lookup_singleton_eq. discriminate.
Qed.

(** A run of each kind: the first of two reads fails on all three attempts;
    the second of three writes fails on all three attempts. *)
Lemma get_isolates_set_aborts_witness :
  (exists data w',
     get Samples.main3 PreKey ["9"; "1"]
       (Samples.connected Samples.two_sessions
          [Fails Samples.timeout; Fails Samples.timeout; Fails Samples.timeout])
     = (Ok data, w')
     /\ (forall id', id' ∈ ["1"] -> is_Some (data !! id'))
     /\ ("9" ∉ ["1"] -> data !! "9" = Some VNull))
  /\ (exists w2,
        set Samples.main3
          [(PreKey, Some [("1", VNum (Int 1)); ("2", VNum (Int 2));
                          ("3", VNum (Int 3))])]
          (Samples.connected ∅
             [Succeeds; Fails Samples.timeout; Fails Samples.timeout;
              Fails Samples.timeout])
        = (Throw (MongoConnectionError "Write data pre-key-2 failed after 3 attempts"
                    (Some Samples.timeout)), w2)
        /\ db w2 !! "main-pre-key-3" = None).
Proof.
  split.
  - refine (proj2 (proj1 (get_isolates_set_aborts Samples.main3)
                     PreKey [] "9" ["1"] _ ∅ _ _ _ eq_refl _)).
    vm_compute. reflexivity.
  - eexists. split.
    + refine (proj2 (get_isolates_set_aborts Samples.main3)
                [] PreKey [("1", VNum (Int 1))] "2" (VNum (Int 2))
                [("3", VNum (Int 3))] [] _ _ _ _ _ eq_refl _ _).
      * vm_compute. reflexivity.
      * vm_compute. reflexivity.
    + vm_compute. reflexivity.
Defined.

End KeyStoreFacts.

Module RoundTripFacts.
Import Outcome Eff JS Store Namespace Mongo AppDataSync TimestampUtils.
Import GatewayFacts StoreFacts JSFacts KeyStoreFacts.
Local Open Scope eff_scope.
Local Open Scope list_scope.

(** [fromObject] on a well-formed sync value: every field is kept, except
    that a [currentIndex] of 0 is replaced by [rawId]. *)
Lemma fromObject_make (keyData : list byte) (rawId currentIndex : Z)
  (deviceIndexes : list Z) (timestamp : Z) :
  fromObject (make keyData rawId currentIndex deviceIndexes timestamp)
  = Ok (make keyData rawId (if currentIndex =? 0 then rawId else currentIndex)
          deviceIndexes timestamp).
Proof.
  unfold fromObject, fromObject_body, make, zero. cbn.
  destruct (rawId =? 0) eqn:Hr; destruct (currentIndex =? 0) eqn:Hc; cbn;
    try rewrite Hr; cbn;
    repeat match goal with
           | H : (_ =? 0) = true |- _ => apply Z.eqb_eq in H; subst
           end;
    reflexivity.
Qed.

Lemma portable_make (keyData : list byte) (rawId currentIndex : Z)
  (deviceIndexes : list Z) (timestamp : Z) :
  portable (make keyData rawId currentIndex deviceIndexes timestamp) = true.
Proof.
  unfold make. cbn. rewrite andb_true_r.
  induction deviceIndexes as [|z l IH]; [reflexivity|exact IH].
Qed.

Lemma writeData_plain (this : Manager) (id : string) (v : value) (w : World) :
  plans w = [] -> 0 < maxRetries (config this) ->
  exists w',
    writeData this id v w = (Ok tt, w') /\ plans w' = []
    /\ db w' = <[sessionPrefix this +:+ id :=
                   {| doc_value := PText (stringify v);
                      doc_session := session (config this) |}]> (db w).
Proof.
  intros Hplain Hmax.
  destruct (ensureConnection_plain this w Hplain) as (w1 & Hc & Hdb & Hp1).
  eexists. split; [|split].
  - unfold writeData. apply executeWithRetry_first_try; [exact Hmax|].
    unfold attempt, bindM. rewrite Hc.
    unfold updateOne, bindM. rewrite (driver_plain _ _ Hp1). reflexivity.
  - exact Hp1.
  - cbn. now rewrite Hdb.
Qed.

Lemma readData_plain (this : Manager) (id : string) (v : value) (w : World) :
  plans w = [] -> 0 < maxRetries (config this) ->
  stored_value (db w !! (sessionPrefix this +:+ id)) = Ok v ->
  exists w', readData this id w = (Ok v, w').
Proof.
  intros Hplain Hmax Hstored.
  destruct (ensureConnection_plain this w Hplain) as (w1 & Hc & Hdb & Hp1).
  unfold readData, try_catch, bindM, queryDocument.
  erewrite executeWithRetry_first_try; [|exact Hmax|].
  2:{ unfold attempt, bindM. rewrite Hc.
      unfold findById, bindM. rewrite (driver_plain _ _ Hp1). reflexivity. }
  cbn [db record_event]. rewrite Hdb.
  unfold stored_value in Hstored.
  destruct (db w !! (sessionPrefix this +:+ id)) as [d|].
  - destruct (doc_value d) as [doc|text| |doc]; unfold lift, ret, throw.
    + rewrite Hstored. eauto.
    + discriminate.
    + injection Hstored as <-. eauto.
    + rewrite Hstored. eauto.
  - injection Hstored as <-. unfold ret. eauto.
Qed.

(** What a [get] returns for a key right after a [set] of a value for it,
    when the driver does not fail: the value written, passed through
    [fromObject] in the app state sync key category. *)
Lemma set_then_get (this : Manager) (type : category) (id : string)
  (v : value) (w : World) :
  plans w = [] -> 0 < maxRetries (config this) ->
  portable v = true -> truthy v = true ->
  fst (set this [(type, Some [(id, v)])] w) = Ok tt
  /\ fst (get this type [id] (snd (set this [(type, Some [(id, v)])] w)))
     = Ok {[id := match (if bool_decide (type = AppStateSyncKey)
                         then fromObject v else Ok v) with
                  | Ok v' => v'
                  | Throw _ => VNull
                  end]}.
Proof.
  intros Hplain Hmax Hport Htruthy.
  rewrite set_single, Htruthy.
  destruct (writeData_plain this (dataKey type id) v w Hplain Hmax)
    as (w1 & -> & Hp1 & Hdb1).
  split; [reflexivity|]. cbn [snd].
  rewrite get_single. unfold fetch, bindM.
  destruct (readData_plain this (dataKey type id) v w1 Hp1 Hmax) as (w2 & ->).
  { rewrite Hdb1, lookup_insert_eq. cbn.
    exact (parse_stringify_portable v Hport). }
  rewrite Htruthy, andb_true_r.
  destruct (bool_decide (type = AppStateSyncKey)).
  - unfold lift. now destruct (fromObject v).
  - reflexivity.
Qed.

(** In the five other categories the value written is the value read. *)
Lemma set_then_get_same (this : Manager) (type : category) (id : string)
  (v : value) (w : World) :
  plans w = [] -> 0 < maxRetries (config this) ->
  portable v = true -> truthy v = true ->
  type <> AppStateSyncKey ->
  fst (get this type [id] (snd (set this [(type, Some [(id, v)])] w)))
  = Ok {[id := v]}.
Proof.
  intros Hplain Hmax Hport Htruthy Htype.
  destruct (set_then_get this type id v w Hplain Hmax Hport Htruthy) as [_ ->].
  now rewrite bool_decide_eq_false_2.
Qed.

(** A sync value comes back with [currentIndex] replaced by [rawId] when
    it was written as 0. *)
Lemma set_then_get_sync (this : Manager) (id : string) (w : World)
  (keyData : list byte) (rawId currentIndex : Z) (deviceIndexes : list Z)
  (timestamp : Z) :
  plans w = [] -> 0 < maxRetries (config this) ->
  fst (get this AppStateSyncKey [id]
         (snd (set this
                 [(AppStateSyncKey,
                   Some [(id, make keyData rawId currentIndex deviceIndexes
                                timestamp)])] w)))
  = Ok {[id := make keyData rawId
                 (if currentIndex =? 0 then rawId else currentIndex)
                 deviceIndexes timestamp]}.
Proof.
  intros Hplain Hmax.
  destruct (set_then_get this AppStateSyncKey id
              (make keyData rawId currentIndex deviceIndexes timestamp) w
              Hplain Hmax (portable_make _ _ _ _ _) eq_refl) as [_ ->].
  rewrite bool_decide_eq_true_2 by reflexivity.
  now rewrite fromObject_make.
Qed.

(** C2: a sync value with [rawId] 5 and [currentIndex] 0 is written as it
    is and read back with [currentIndex] 5. *)
Theorem set_get_sync_value_changes_currentIndex :
  fst (set Samples.main3
         [(AppStateSyncKey, Some [("k1", make [x01; x02; x03] 5 0 [1] 1690000000)])]
         Samples.fresh) = Ok tt
  /\ fst (get Samples.main3 AppStateSyncKey ["k1"]
            (snd (set Samples.main3
                    [(AppStateSyncKey,
                      Some [("k1", make [x01; x02; x03] 5 0 [1] 1690000000)])]
                    Samples.fresh)))
     = Ok {["k1" := make [x01; x02; x03] 5 5 [1] 1690000000]}
  /\ make [x01; x02; x03] 5 5 [1] 1690000000
     <> make [x01; x02; x03] 5 0 [1] 1690000000.
Proof.
  split; [|split].
  - apply (set_then_get Samples.main3 AppStateSyncKey "k1"
             (make [x01; x02; x03] 5 0 [1] 1690000000) Samples.fresh);
      reflexivity.
  - apply (set_then_get_sync Samples.main3 "k1" Samples.fresh
             [x01; x02; x03] 5 0 [1] 1690000000); reflexivity.
  - discriminate.
Qed.

End RoundTripFacts.

Module ConfigFacts.
Import Outcome Eff JS Store Namespace Mongo.
Local Open Scope eff_scope.
Local Open Scope list_scope.

Lemma serve_agree (m1 m2 : Manager) (rq : request) (w : World) :
  agree m1 m2 -> serve m1 rq w = serve m2 rq w.
Proof.
  destruct m1 as [uri1 [name1 delay1 max1 session1 debug1]].
  destruct m2 as [uri2 [name2 delay2 max2 session2 debug2]].
  unfold agree. cbn. intros (-> & -> & -> & ->).
  destruct rq; reflexivity.
Qed.

Lemma serve_all_agree (m1 m2 : Manager) (rqs : list request) :
  agree m1 m2 -> forall w, serve_all m1 rqs w = serve_all m2 rqs w.
Proof.
  intros Hagree. induction rqs as [|rq rqs IH]; intros w; [reflexivity|].
  cbn [serve_all]. rewrite (serve_agree m1 m2 rq w Hagree).
  destruct (serve m2 rq w) as [r w1]. now rewrite IH.
Qed.

Lemma new_MongoSessionManager_config (uri : string) (given : MongoConfig)
  (m : Manager) :
  new_MongoSessionManager uri given = Ok m ->
  mongoURI m = uri
  /\ retryRequestDelayMs (config m) = number_or (given_retryRequestDelayMs given) 200
  /\ maxRetries (config m) = number_or (given_maxRetries given) 10
  /\ session (config m) = given_session given.
Proof.
  unfold new_MongoSessionManager.
  destruct (String.eqb uri ""); [discriminate|].
  destruct (String.eqb (given_session given) ""
            || negb (ValidationUtils.isValidSessionId (given_session given)));
    [discriminate|].
  destruct (negb (ValidationUtils.isValidCollectionName _)); [discriminate|].
  intros [= <-]. cbn. auto.
Qed.

(** C10: two managers built from configurations that differ only in the
    collection name answer every sequence of requests alike and leave the
    same world, stored records included. *)
Theorem collectionName_is_not_used (uri : string) (given1 given2 : MongoConfig)
  (m1 m2 : Manager) (rqs : list request) (w : World) :
  same_but_collectionName given1 given2 ->
  new_MongoSessionManager uri given1 = Ok m1 ->
  new_MongoSessionManager uri given2 = Ok m2 ->
  serve_all m1 rqs w = serve_all m2 rqs w.
Proof.
  intros (Hdelay & Hmax & Hsession & _) Hm1 Hm2.
  apply serve_all_agree.
  apply new_MongoSessionManager_config in Hm1 as (Hu1 & Hd1 & Hx1 & Hs1).
  apply new_MongoSessionManager_config in Hm2 as (Hu2 & Hd2 & Hx2 & Hs2).
  unfold agree. rewrite Hu1, Hu2, Hd1, Hd2, Hx1, Hx2, Hs1, Hs2.
  rewrite Hdelay, Hmax, Hsession. auto.
Qed.

Lemma collectionName_is_not_used_witness :
  serve_all Samples.main3
    [ReqSet [(PreKey, Some [("1", VNum (Int 1))])]; ReqGet PreKey ["1"; "2"];
     ReqClear; ReqQuery "archive" "pre-key-1"]
    (Samples.connected Samples.two_sessions [Fails Samples.timeout])
  = serve_all Samples.main3_archive
      [ReqSet [(PreKey, Some [("1", VNum (Int 1))])]; ReqGet PreKey ["1"; "2"];
       ReqClear; ReqQuery "archive" "pre-key-1"]
      (Samples.connected Samples.two_sessions [Fails Samples.timeout]).
Proof.
  apply (collectionName_is_not_used "mongodb://localhost:27017/whatsapp"
           Samples.given_main3 Samples.given_main3_archive).
  - unfold same_but_collectionName. cbn. auto.
  - reflexivity.
  - reflexivity.
Defined.

(** The constructor does read the collection name: it refuses a reserved
    one. *)
Example new_MongoSessionManager_system_collection :
  new_MongoSessionManager "mongodb://localhost:27017/whatsapp"
    {| given_collectionName := Some "system.users";
       given_retryRequestDelayMs := None; given_maxRetries := None;
       given_session := "main"; given_debug := None |}
  = Throw (SessionValidationError "Invalid collection name: system.users" None).
Proof. reflexivity. Qed.

End ConfigFacts.

Module ValidationFacts.
Import Outcome Text JS ValidationUtils Mongo.

Lemma all_chars_app (p : ascii -> bool) (a b : string) :
  all_chars p (a +:+ b) = all_chars p a && all_chars p b.
Proof.
  induction a as [|c a IH]; simpl; [reflexivity|].
  now rewrite IH, andb_assoc.
Qed.

Lemma prefix_app (p s : string) :
  String.prefix p s = true -> exists rest, s = p +:+ rest.
Proof.
  revert s. induction p as [|c p IH]; intros s.
  - exists s. reflexivity.
  - destruct s as [|c' s]; simpl; [discriminate|].
    destruct (ascii_dec c c') as [<-|]; [|discriminate].
    intros Hp. destruct (IH s Hp) as [rest ->]. now exists rest.
Qed.

Lemma prefix_of_app (p rest : string) : String.prefix p (p +:+ rest) = true.
Proof.
  induction p as [|c p IH]; simpl; [now destruct rest|].
  destruct (ascii_dec c c); [exact IH|contradiction].
Qed.

(** A name made of pattern characters does not start with ["system."]:
    the dot is not in the class. *)
Lemma ident_not_system (s : string) :
  all_chars is_ident_char s = true -> startsWith s "system." = false.
Proof.
  intros Hs. unfold startsWith.
  destruct (String.prefix "system." s) eqn:Hp; [|reflexivity].
  apply prefix_app in Hp as [rest ->].
  rewrite all_chars_app in Hs. discriminate Hs.
Qed.

(** X1: both validators are decided by their pattern alone.  The test for
    an empty argument is covered by the lower length bound, and the test
    for the reserved prefix ["system."] in [isValidCollectionName] never
    decides: a name that passes the pattern holds no dot. *)
Theorem validators_are_their_patterns (s : string) :
  isValidSessionId s = matches_ident 1 100 s
  /\ isValidCollectionName s = matches_ident 1 120 s.
Proof.
  unfold isValidSessionId, isValidCollectionName.
  destruct (String.eqb_spec s "") as [->|Hne]; [split; reflexivity|].
  split; [reflexivity|].
  destruct (matches_ident 1 120 s) eqn:Hm; [|reflexivity].
  unfold matches_ident in Hm.
  apply andb_prop in Hm as [Hm _]. apply andb_prop in Hm as [Hm _].
  now rewrite (ident_not_system s Hm).
Qed.

Lemma number_or_nonzero (given : option Z) (fallback : Z) :
  fallback <> 0 -> number_or given fallback <> 0.
Proof.
  intros Hf. unfold number_or. destruct given as [z|]; [|exact Hf].
  destruct (Z.eqb_spec z 0); assumption.
Qed.

(** X2: what the constructor accepts.  A manager it returns has a
    non-empty URI, the caller's session, which is valid, a valid collection
    name, and a retry bound and a delay that are not 0 (a 0 given by the
    caller is replaced by the default, 10 and 200).  When it throws, the
    URI is empty, the session is invalid or the collection name, after the
    default, is invalid, and the error is a [SessionValidationError]
    without cause. *)
Theorem new_MongoSessionManager_accepts (uri : string) (given : MongoConfig) :
  match new_MongoSessionManager uri given with
  | Ok m =>
      mongoURI m = uri /\ uri <> ""
      /\ session (config m) = given_session given
      /\ isValidSessionId (session (config m)) = true
      /\ isValidCollectionName (collectionName (config m)) = true
      /\ maxRetries (config m) <> 0
      /\ retryRequestDelayMs (config m) <> 0
      /\ (given_maxRetries given = Some 0 -> maxRetries (config m) = 10)
      /\ (given_retryRequestDelayMs given = Some 0 ->
          retryRequestDelayMs (config m) = 200)
  | Throw e =>
      (uri = ""
       \/ isValidSessionId (given_session given) = false
       \/ isValidCollectionName
            (string_or (given_collectionName given) "baileys-auth") = false)
      /\ exists message, e = SessionValidationError message None
  end.
Proof.
  unfold new_MongoSessionManager.
  destruct (String.eqb_spec uri "") as [->|Huri]; [split; eauto|].
  destruct (isValidSessionId (given_session given)) eqn:Hs.
  - assert (Hne : String.eqb (given_session given) "" = false).
    { destruct (String.eqb_spec (given_session given) "") as [He|]; [|reflexivity].
      rewrite He in Hs. discriminate Hs. }
    rewrite Hne. cbn [orb negb collectionName].
    destruct (isValidCollectionName
                (string_or (given_collectionName given) "baileys-auth")) eqn:Hc;
      cbn [negb].
    + cbn [mongoURI config session collectionName maxRetries retryRequestDelayMs].
      repeat split; try assumption.
      * apply number_or_nonzero. discriminate.
      * apply number_or_nonzero. discriminate.
      * now intros ->.
      * now intros ->.
    + split; eauto.
  - rewrite orb_true_r. split; eauto.
Qed.

End ValidationFacts.

Module RetryFacts.
Import Outcome Eff JS Store Namespace Mongo.
Import GatewayFacts StoreFacts KeyStoreFacts.
Local Open Scope eff_scope.
Local Open Scope list_scope.

(** What the loop throws is the error made by [exhausted]; its cause is the
    one the loop was entered with when no attempt was made, and the last
    attempt's error otherwise. *)
Lemma retry_loop_throws {T : Type} (this : Manager) (op : M World T)
  (name : string) (fuel : nat) :
  forall (no : Z) (last : option error) (w w' : World) (e : error),
    retry_loop this fuel no last op name w = (Throw e, w') ->
    exists last',
      e = exhausted this name last'
      /\ ((fuel = 0%nat /\ last' = last) \/ exists e0, last' = Some (toError e0)).
Proof.
  induction fuel as [|fuel IH]; intros no last w w' e.
  - cbn. unfold throw. intros [= <- <-]. eauto.
  - rewrite retry_loop_step.
    destruct (attempt this op w) as [[a|e1] w1]; [discriminate|].
    destruct (no <? maxRetries (config this)).
    + intros Hrun. apply IH in Hrun as (last' & -> & Hlast).
      exists last'. split; [reflexivity|]. right.
      destruct Hlast as [[_ ->]|Hlast]; eauto.
    + intros [= <- <-]. eauto.
Qed.








End RetryFacts.

Module ConnectionFacts.
Import Outcome Eff JS Store Namespace Mongo.
Import GatewayFacts StoreFacts.
Local Open Scope eff_scope.
Local Open Scope list_scope.

(** [ensureConnection] calls the driver once when the manager is not
    connected or the connection is not ready, and not at all otherwise. *)
Lemma ensureConnection_log (this : Manager) (w : World) :
  log (snd (ensureConnection this w))
  = if isConnected w && (readyState w =? 1) then log w
    else log w ++ [EvConnect (mongoURI this)].
Proof.
  unfold ensureConnection.
  destruct (isConnected w && (readyState w =? 1)); [reflexivity|].
  unfold try_catch, connect, bindM.
  pose proof (driver_log (EvConnect (mongoURI this)) w) as Hlog.
  destruct (driver (EvConnect (mongoURI this)) w) as [[[]|e] w1]; exact Hlog.
Qed.

Lemma driver_isConnected (ev : event) (w : World) :
  isConnected (snd (driver ev w)) = isConnected w.
Proof.
  unfold driver. destruct (plans w) as [|[|e|e] rest]; reflexivity.
Qed.

(** X6: when [ensureConnection] returns, the manager is connected and the
    connection is ready, so that calling it again changes nothing and does
    not reach the driver; when it throws, the manager is marked as not
    connected and the error is a [MongoConnectionError] with the fixed
    message. *)
Theorem ensureConnection_establishes (this : Manager) (w : World) :
  match ensureConnection this w with
  | (Ok _, w1) =>
      isConnected w1 = true /\ readyState w1 = 1
      /\ ensureConnection this w1 = (Ok tt, w1)
  | (Throw e, w1) =>
      isConnected w1 = false
      /\ exists cause,
           e = MongoConnectionError "Failed to connect to MongoDB" cause
  end.
Proof.
  unfold ensureConnection.
  destruct (isConnected w && (readyState w =? 1)) eqn:Hready.
  - rewrite Hready. apply andb_prop in Hready as [Hc Hr].
    apply Z.eqb_eq in Hr. auto.
  - unfold try_catch, connect, bindM, driver.
    destruct (plans w) as [|[|e|e] rest]; cbn; eauto.
Qed.

(** X7: [disconnect] does nothing on a manager that is not connected.  On
    a connected one, when it returns the manager is marked as not
    connected, the collection is as before, a second [disconnect] does
    nothing, and the next [ensureConnection] connects again; when the
    driver's disconnect throws, the manager stays marked as connected. *)
Theorem disconnect_then_reconnect (this : Manager) (w : World) :
  (isConnected w = false -> disconnect w = (Ok tt, w))
  /\ match disconnect w with
     | (Ok _, w1) =>
         isConnected w1 = false /\ db w1 = db w
         /\ disconnect w1 = (Ok tt, w1)
         /\ log (snd (ensureConnection this w1))
            = log w1 ++ [EvConnect (mongoURI this)]
     | (Throw _, w1) => isConnected w1 = true /\ db w1 = db w
     end.
Proof.
  split.
  - unfold disconnect. now intros ->.
  - assert (Hre : forall w1, isConnected w1 = false ->
                    disconnect w1 = (Ok tt, w1)
                    /\ log (snd (ensureConnection this w1))
                       = log w1 ++ [EvConnect (mongoURI this)]).
    { intros w1 Hoff. split.
      - unfold disconnect. now rewrite Hoff.
      - rewrite ensureConnection_log, Hoff. reflexivity. }
    unfold disconnect at 1. destruct (isConnected w) eqn:Hc.
    + unfold mongoose_disconnect, bindM, modify.
      pose proof (driver_db EvDisconnect w) as Hdb.
      pose proof (driver_isConnected EvDisconnect w) as Hflag.
      destruct (driver EvDisconnect w) as [[[]|e] w1]; cbn [snd] in Hdb, Hflag.
      * split; [reflexivity|]. split; [exact Hdb|]. now apply Hre.
      * split; [now rewrite Hflag|exact Hdb].
    + split; [exact Hc|]. split; [reflexivity|]. now apply Hre.
Qed.

End ConnectionFacts.

Module CodecFacts.
Import Outcome Base64 Base64Facts JS JS.BufferJSON Shapes.
Import JSFacts.
Local Open Scope list_scope.

(** Induction over documents, with the hypothesis for every item of an
    array and every field of an object. *)
Lemma json_nested_ind (P : json -> Prop) :
  P JNull -> (forall b, P (JBool b)) -> (forall z, P (JNum z)) ->
  (forall s, P (JStr s)) ->
  (forall l, Forall P l -> P (JArr l)) ->
  (forall fs, Forall (fun kv => P (snd kv)) fs -> P (JObj fs)) ->
  forall j, P j.
Proof.
  intros Hnull Hbool Hnum Hstr Harr Hobj.
  fix IH 1. intros [ | b | z | s | l | fs ].
  - exact Hnull.
  - apply Hbool.
  - apply Hnum.
  - apply Hstr.
  - apply Harr.
    exact ((fix items (l : list json) : Forall P l :=
              match l with
              | [] => List.Forall_nil P
              | x :: rest => List.Forall_cons P x rest (IH x) (items rest)
              end) l).
  - apply Hobj.
    exact ((fix fields (fs : list (string * json))
              : Forall (fun kv => P (snd kv)) fs :=
              match fs with
              | [] => List.Forall_nil _
              | kv :: rest =>
                  List.Forall_cons (fun kv => P (snd kv)) kv rest
                    (IH (snd kv)) (fields rest)
              end) fs).
Qed.

(** What [mapM] returns was returned item by item. *)
Lemma mapM_Ok {A B : Type} (f : A -> result B) (P : B -> Prop) (l : list A) :
  Forall (fun x => forall y, f x = Ok y -> P y) l ->
  forall ys, mapM f l = Ok ys -> Forall P ys.
Proof.
  induction 1 as [|x l Hx _ IH]; simpl; intros ys.
  - intros [= <-]. constructor.
  - destruct (f x) as [y|e] eqn:Hfx; [|discriminate].
    destruct (mapM f l) as [ys'|e]; [|discriminate].
    intros [= <-]. constructor; [now apply Hx | now apply IH].
Qed.

(** What [mapM] throws was thrown by an item. *)
Lemma mapM_Throw {A B : Type} (f : A -> result B) (P : error -> Prop) (l : list A) :
  Forall (fun x => forall e, f x = Throw e -> P e) l ->
  forall e, mapM f l = Throw e -> P e.
Proof.
  induction 1 as [|x l Hx _ IH]; simpl; intros e.
  - discriminate.
  - destruct (f x) as [y|e'] eqn:Hfx; [|intros [= <-]; now apply Hx].
    destruct (mapM f l) as [ys'|e']; [discriminate|].
    intros [= <-]. now apply IH.
Qed.

(** The reviver returns a buffer for a marked object and the value itself
    for every other one. *)
Lemma reviver_Ok (v v' : value) :
  reviver v = Ok v' ->
  (exists bs, v' = VBuffer bs)
  \/ (v' = v /\ match v with VObj fs => marked fs = false | _ => True end).
Proof.
  unfold reviver.
  destruct v as [ | b | n | s | l | fs | bs | bs ]; cbn;
    try (intros [= <-]; right; split; [reflexivity|exact I]).
  unfold marked.
  destruct (assoc "type" fs) as [[ | | | t | | | | ]|];
    try (intros [= <-]; right; split; reflexivity).
  destruct (String.eqb t "Buffer").
  - destruct (assoc "data" fs) as [[ | | | s | l | fs' | bs | bs ]|]; cbn;
      try discriminate; intros [= <-]; left; eauto.
  - intros [= <-]. right. split; reflexivity.
Qed.

Lemma reviver_Throw (v : value) (e : error) :
  reviver v = Throw e ->
  exists cause,
    e = SessionValidationError "Failed to revive Buffer from base64" cause.
Proof.
  unfold reviver.
  destruct (prop "type" v) as [[ | | | t | | | | ]|]; try discriminate.
  destruct (String.eqb t "Buffer"); [|discriminate].
  destruct (Buffer_from (prop "data" v)); cbn; [discriminate|].
  intros [= <-]. eauto.
Qed.

(** The only error of a decode is the reviver's. *)
Lemma parse_raises (j : json) (e : error) :
  parse j = Throw e ->
  exists cause,
    e = SessionValidationError "Failed to revive Buffer from base64" cause.
Proof.
  revert e.
  induction j as [ | b | z | s | l IH | fs IH ] using json_nested_ind;
    intros e; cbn [parse]; try apply reviver_Throw.
  - destruct (mapM parse l) as [items|e'] eqn:Hitems; cbn [bind].
    + apply reviver_Throw.
    + intros [= <-]. revert e' Hitems. apply mapM_Throw. exact IH.
  - destruct (mapM _ fs) as [fs'|e'] eqn:Hfields; cbn [bind].
    + apply reviver_Throw.
    + intros [= <-]. revert e' Hfields. apply mapM_Throw.
      eapply Forall_impl; [exact IH|].
      intros [k j] Hj e0. cbn [fst snd] in *.
      destruct (parse j) as [v|e1]; cbn [bind]; [discriminate|].
      intros [= <-]. now apply Hj.
Qed.

(** X8: a decode never hands out a plain object that still
    carries the buffer mark: every object whose [type] is ["Buffer"] has
    become a buffer, at any depth, or the decode has thrown. *)
Theorem parse_leaves_no_mark (j : json) (v : value) :
  parse j = Ok v -> unmarked v = true.
Proof.
  revert v.
  induction j as [ | b | z | s | l IH | fs IH ] using json_nested_ind;
    intros v; cbn [parse];
    try (intros Hv; apply reviver_Ok in Hv as [[bs ->]|[-> _]]; reflexivity).
  - destruct (mapM parse l) as [items|e'] eqn:Hitems; cbn [bind]; [|discriminate].
    intros Hv. apply reviver_Ok in Hv as [[bs ->]|[-> _]]; [reflexivity|].
    cbn [unmarked]. apply forallb_forall. intros x Hx.
    pose proof (mapM_Ok parse (fun y => unmarked y = true) l IH items Hitems) as Hall.
    rewrite Forall_forall in Hall. apply Hall. now apply list_elem_of_In.
  - destruct (mapM _ fs) as [fs'|e'] eqn:Hfields; cbn [bind]; [|discriminate].
    intros Hv. apply reviver_Ok in Hv as [[bs ->]|[-> Hm]]; [reflexivity|].
    cbn [unmarked]. rewrite Hm. cbn [negb andb].
    apply forallb_forall. intros kv Hkv.
    assert (Hall : Forall (fun kv => unmarked (snd kv) = true) fs').
    { eapply mapM_Ok; [|exact Hfields].
      eapply Forall_impl; [exact IH|].
      intros [k j] Hj [k' v']. cbn [fst snd] in *.
      destruct (parse j) as [v0|e1]; cbn [bind]; [|discriminate].
      intros [= <- <-]. now apply Hj. }
    rewrite Forall_forall in Hall. apply Hall. now apply list_elem_of_In.
Qed.

Lemma parse_leaves_no_mark_witness :
  parse (JArr [JObj [("type", JStr "Buffer"); ("data", JStr "AQID")];
               JObj [("type", JStr "text")]])
  = Ok (VArr [VBuffer [x01; x02; x03]; VObj [("type", VStr "text")]])
  /\ unmarked (VArr [VBuffer [x01; x02; x03]; VObj [("type", VStr "text")]]) = true.
Proof.
  split; [reflexivity|].
  apply (parse_leaves_no_mark
           (JArr [JObj [("type", JStr "Buffer"); ("data", JStr "AQID")];
                  JObj [("type", JStr "text")]])).
  reflexivity.
Defined.

End CodecFacts.

Module ReadFacts.
Import Outcome Eff JS Store Namespace Mongo AppDataSync Shapes.
Import GatewayFacts StoreFacts KeyStoreFacts CodecFacts RetryFacts.
Local Open Scope eff_scope.
Local Open Scope list_scope.

(** Decoding a record fails with a syntax error or with the reviver's
    error, both instances of [Error] and neither a
    [MongoConnectionError]. *)
Lemma stored_value_raises (found : option document) (e : error) :
  stored_value found = Throw e ->
  isMongoConnectionError e = false /\ asError e = Some e.
Proof.
  unfold stored_value. destruct found as [d|]; [|discriminate].
  destruct (doc_value d) as [doc|text| |doc]; try discriminate.
  - intros Hp. apply parse_raises in Hp as [cause ->]. split; reflexivity.
  - intros [= <-]. split; reflexivity.
  - intros Hp. apply parse_raises in Hp as [cause ->]. split; reflexivity.
Qed.

(** [readData] is the query followed by the decoding of what was found,
    with the errors sorted by the [catch]. *)
Lemma readData_run (this : Manager) (id : string) (w : World) :
  readData this id w
  = match queryDocument this id w with
    | (Ok found, w1) =>
        (match stored_value found with
         | Ok v => Ok v
         | Throw e =>
             Throw (SessionValidationError
                      ("Failed to read data for ID: " +:+ id) (Some e))
         end, w1)
    | (Throw e, w1) =>
        (Throw (if isMongoConnectionError e then e
                else SessionValidationError
                       ("Failed to read data for ID: " +:+ id) (asError e)), w1)
    end.
Proof.
  unfold readData, try_catch, bindM.
  destruct (queryDocument this id w) as [[found|e] w1].
  - pose proof (stored_value_raises found) as Hraises.
    unfold stored_value in *. destruct found as [d|]; [|reflexivity].
    destruct (doc_value d) as [doc|text| |doc]; unfold lift, ret, throw;
      try reflexivity.
    + destruct (parse doc) as [v|e]; [reflexivity|].
      destruct (Hraises e eq_refl) as [-> ->]. reflexivity.
    + destruct (parse doc) as [v|e]; [reflexivity|].
      destruct (Hraises e eq_refl) as [-> ->]. reflexivity.
  - unfold throw. now destruct (isMongoConnectionError e).
Qed.

Lemma queryDocument_outcome (this : Manager) (id : string) (w : World) :
  match queryDocument this id w with
  | (Ok found, w') => found = db w !! (sessionPrefix this +:+ id) /\ db w' = db w
  | (Throw _, w') => db w' = db w
  end.
Proof.
  unfold queryDocument.
  exact (executeWithRetry_meets this _ _ ("Query document " +:+ id)
           (findById_meets (sessionPrefix this +:+ id)) w).
Qed.

(** X9: [readData] throws two kinds of error only, and in both cases the
    collection is as before.  A [MongoConnectionError] of the gateway
    passes unchanged: the query failed on every attempt.  Otherwise the
    record was found and could not be decoded (its text is not JSON, or
    the reviver refused a marked object), and the error is a
    [SessionValidationError] that names the id and has the decoding error
    as cause. *)
Theorem readData_raises (this : Manager) (id : string) (w w' : World)
  (e : error) :
  readData this id w = (Throw e, w') ->
  db w' = db w
  /\ ((exists lastError,
         e = MongoConnectionError
               (("Query document " +:+ id) +:+ " failed after "
                  +:+ pretty (maxRetries (config this)) +:+ " attempts")
               lastError)
      \/ (exists cause,
            e = SessionValidationError
                  ("Failed to read data for ID: " +:+ id) (Some cause)
            /\ stored_value (db w !! (sessionPrefix this +:+ id))
               = Throw cause)).
Proof.
  rewrite readData_run.
  pose proof (queryDocument_outcome this id w) as Hq.
  destruct (queryDocument this id w) as [[found|e0] w1] eqn:Hrun.
  - destruct Hq as [-> Hdb].
    destruct (stored_value (db w !! (sessionPrefix this +:+ id))) as [v|e1];
      [discriminate|].
    intros [= <- <-]. split; [exact Hdb|]. right. eauto.
  - unfold queryDocument, executeWithRetry in Hrun.
    apply retry_loop_throws in Hrun as (last' & -> & _).
    cbn [isMongoConnectionError exhausted].
    intros [= <- <-]. split; [exact Hq|]. left. eauto.
Qed.

Lemma readData_raises_witness :
  exists e w',
    readData Samples.main3 "pre-key-1"
      (Samples.connected MoreSamples.garbled []) = (Throw e, w')
    /\ db w' = MoreSamples.garbled.
Proof.
  destruct (readData Samples.main3 "pre-key-1"
              (Samples.connected MoreSamples.garbled [])) as [[v|e] w'] eqn:Hrun.
  - vm_compute in Hrun. discriminate Hrun.
  - exists e, w'. split; [reflexivity|].
    exact (proj1 (readData_raises Samples.main3 "pre-key-1" _ w' e Hrun)).
Defined.

Lemma fetch_db (this : Manager) (type : category) (id : string) (w : World) :
  db (snd (fetch this type id w)) = db w.
Proof.
  unfold fetch, bindM.
  pose proof (readData_outcome this (dataKey type id) w) as Hread.
  destruct (readData this (dataKey type id) w) as [[v|e] w1]; [|exact Hread].
  destruct Hread as [_ Hdb].
  destruct (bool_decide (type = AppStateSyncKey) && truthy v); exact Hdb.
Qed.

Lemma get_from_db (this : Manager) (type : category) (ids : list string) :
  forall data w, db (snd (get_from this type ids data w)) = db w.
Proof.
  induction ids as [|id ids IH]; intros data w; [reflexivity|].
  cbn [get_from]. unfold bindM. rewrite get_one_fetch.
  pose proof (fetch_db this type id w) as Hdb.
  destruct (fetch this type id w) as [[v|e] w1]; cbn [snd] in Hdb;
    now rewrite IH.
Qed.

(** X10: reading never changes the collection, whatever the driver does
    meanwhile: neither [keys.get] nor [query] adds, changes or removes a
    record. *)
Theorem reads_leave_the_collection (this : Manager) (type : category)
  (ids : list string) (collection docId : string) (w : World) :
  db (snd (get this type ids w)) = db w
  /\ db (snd (query this collection docId w)) = db w.
Proof.
  split; [apply get_from_db|].
  unfold query. pose proof (queryDocument_outcome this docId w) as Hq.
  destruct (queryDocument this docId w) as [[found|e] w1]; [apply Hq|exact Hq].
Qed.


(** *** A store that works *)

Lemma write_plain (this : Manager) (ev : event)
  (f : gmap string document -> gmap string document) (name : string) (w : World) :
  plans w = [] -> 0 < maxRetries (config this) ->
  exists w',
    executeWithRetry this (driver ev ;;; modify (with_db f)) name w = (Ok tt, w')
    /\ plans w' = [] /\ db w' = f (db w).
Proof.
  intros Hplain Hmax.
  destruct (ensureConnection_plain this w Hplain) as (w1 & Hc & Hdb & Hp1).
  eexists. split; [|split].
  - apply executeWithRetry_first_try; [exact Hmax|].
    unfold attempt, bindM. rewrite Hc, (driver_plain _ _ Hp1). reflexivity.
  - exact Hp1.
  - cbn. now rewrite Hdb.
Qed.

Lemma queryDocument_plain (this : Manager) (id : string) (w : World) :
  plans w = [] -> 0 < maxRetries (config this) ->
  exists w',
    queryDocument this id w = (Ok (db w !! (sessionPrefix this +:+ id)), w')
    /\ plans w' = [] /\ db w' = db w.
Proof.
  intros Hplain Hmax.
  destruct (ensureConnection_plain this w Hplain) as (w1 & Hc & Hdb & Hp1).
  eexists. split; [|split].
  - unfold queryDocument. apply executeWithRetry_first_try; [exact Hmax|].
    unfold attempt, bindM. rewrite Hc.
    unfold findById, bindM. rewrite (driver_plain _ _ Hp1).
    cbn [db record_event]. rewrite Hdb. reflexivity.
  - exact Hp1.
  - cbn. exact Hdb.
Qed.

Lemma readData_working (this : Manager) (id : string) (w : World) :
  plans w = [] -> 0 < maxRetries (config this) ->
  exists w',
    readData this id w
    = (match stored_value (db w !! (sessionPrefix this +:+ id)) with
       | Ok v => Ok v
       | Throw e =>
           Throw (SessionValidationError
                    ("Failed to read data for ID: " +:+ id) (Some e))
       end, w')
    /\ plans w' = [] /\ db w' = db w.
Proof.
  intros Hplain Hmax.
  destruct (queryDocument_plain this id w Hplain Hmax) as (w' & Hq & Hp & Hdb).
  exists w'. rewrite readData_run, Hq. auto.
Qed.

Lemma get_one_working (this : Manager) (type : category) (id : string)
  (data : gmap string value) (w : World) :
  plans w = [] -> 0 < maxRetries (config this) ->
  exists w',
    get_one this type id data w
    = (Ok (<[id := answer_for type
                     (db w !! resolve (session (config this)) type id)]> data), w')
    /\ plans w' = [] /\ db w' = db w.
Proof.
  intros Hplain Hmax.
  destruct (readData_working this (dataKey type id) w Hplain Hmax)
    as (w' & Hread & Hp & Hdb).
  exists w'. split; [|auto].
  rewrite get_one_fetch. unfold fetch, bindM. rewrite Hread.
  rewrite storage_key. unfold answer_for.
  destruct (stored_value (db w !! resolve (session (config this)) type id))
    as [v|e]; [|reflexivity].
  destruct (bool_decide (type = AppStateSyncKey) && truthy v); [|reflexivity].
  unfold lift. now destruct (fromObject v).
Qed.

Lemma get_from_working (this : Manager) (type : category) (ids : list string) :
  forall data w,
    plans w = [] -> 0 < maxRetries (config this) ->
    exists w',
      get_from this type ids data w
      = (Ok (foldl (fun acc id =>
                      <[id := answer_for type
                                (db w !! resolve (session (config this)) type id)]> acc)
               data ids), w')
      /\ plans w' = [] /\ db w' = db w.
Proof.
  induction ids as [|id ids IH]; intros data w Hplain Hmax.
  - exists w. auto.
  - destruct (get_one_working this type id data w Hplain Hmax)
      as (w1 & Hone & Hp1 & Hdb1).
    destruct (IH (<[id := answer_for type
                            (db w !! resolve (session (config this)) type id)]> data)
                 w1 Hp1 Hmax) as (w' & Hrest & Hp & Hdb).
    exists w'. split; [|split; [exact Hp|congruence]].
    cbn [get_from foldl]. unfold bindM. rewrite Hone, Hrest, Hdb1. reflexivity.
Qed.




End ReadFacts.

Module WriteFacts.
Import Outcome Eff Text JS Store Namespace Mongo AppDataSync Shapes.
Import TextFacts GatewayFacts StoreFacts KeyStoreFacts ValidationFacts.
Import CodecFacts RetryFacts ReadFacts.
Local Open Scope eff_scope.
Local Open Scope list_scope.

Lemma append_inv_head (p a b : string) : p +:+ a = p +:+ b -> a = b.
Proof.
  induction p as [|c p IH]; simpl; [auto|].
  intros [= Heq]. auto.
Qed.

(** Inside one session no key of the key store is the key of the
    credentials record: no category name starts like ["creds"]. *)
Lemma resolve_ne_credsId (session : string) (type : category) (id : string) :
  resolve session type id <> credsId session.
Proof.
  unfold resolve, credsId, fullId. intros Heq.
  apply append_inv_head in Heq. destruct type; discriminate Heq.
Qed.

Lemma set_one_outcome (this : Manager) (type : category) (id : string)
  (v : value) (w : World) :
  match set_one this type id v w with
  | (Ok _, w') =>
      db w' = (if truthy v
               then <[resolve (session (config this)) type id :=
                        {| doc_value := PText (stringify v);
                           doc_session := session (config this) |}]> (db w)
               else delete (resolve (session (config this)) type id) (db w))
  | (Throw _, w') => db w' = db w
  end.
Proof.
  unfold set_one. rewrite try_catch_rethrow, <- storage_key.
  destruct (truthy v).
  - apply writeData_outcome.
  - apply removeData_outcome.
Qed.

Lemma set_one_frame (this : Manager) (type : category) (id : string)
  (v : value) (w : World) (k : string) :
  k <> resolve (session (config this)) type id ->
  db (snd (set_one this type id v w)) !! k = db w !! k.
Proof.
  intros Hk. pose proof (set_one_outcome this type id v w) as Hout.
  destruct (set_one this type id v w) as [[[]|e] w']; cbn [snd];
    rewrite Hout; [|reflexivity].
  destruct (truthy v).
  - now apply lookup_insert_ne.
  - now apply lookup_delete_ne.
Qed.

Lemma set_ids_frame (this : Manager) (type : category)
  (entries : list (string * value)) (k : string) :
  k ∉ map (fun kv => resolve (session (config this)) type (fst kv)) entries ->
  forall w, db (snd (set_ids this type entries w)) !! k = db w !! k.
Proof.
  induction entries as [|[id v] entries IH]; intros Hk w; [reflexivity|].
  cbn [map fst] in Hk. apply not_elem_of_cons in Hk as [Hne Hrest].
  cbn [set_ids]. unfold bindM.
  pose proof (set_one_frame this type id v w k Hne) as Hone.
  destruct (set_one this type id v w) as [[[]|e] w1]; cbn [snd] in Hone |- *.
  - now rewrite IH.
  - exact Hone.
Qed.

Lemma set_frame (this : Manager)
  (data : list (category * option (list (string * value)))) (k : string) :
  k ∉ touched (session (config this)) data ->
  forall w, db (snd (set this data w)) !! k = db w !! k.
Proof.
  induction data as [|[type [entries|]] data IH]; intros Hk w; [reflexivity| |].
  - cbn [touched] in Hk. apply not_elem_of_app in Hk as [Hhere Hrest].
    cbn [set]. unfold bindM.
    pose proof (set_ids_frame this type entries k Hhere w) as Hids.
    destruct (set_ids this type entries w) as [[[]|e] w1]; cbn [snd] in Hids |- *.
    + now rewrite IH.
    + exact Hids.
  - cbn [touched] in Hk. cbn [set]. unfold bindM, ret. now apply IH.
Qed.

Lemma credsId_untouched (session : string)
  (data : list (category * option (list (string * value)))) :
  credsId session ∉ touched session data.
Proof.
  induction data as [|[type [entries|]] data IH]; cbn [touched].
  - apply not_elem_of_nil.
  - apply not_elem_of_app. split; [|exact IH].
    intros Hin. apply list_elem_of_fmap in Hin as ([id v] & Heq & _).
    symmetry in Heq. revert Heq. apply resolve_ne_credsId.
  - exact IH.
Qed.

(** X13: [keys.set] changes no record but those under the storage keys its
    delta names, whatever the driver does and whether it returns or
    throws; in particular it never changes the credentials record of its
    session. *)
Theorem set_changes_named_keys_only (this : Manager)
  (data : list (category * option (list (string * value)))) (w : World) :
  (forall k, k ∉ touched (session (config this)) data ->
             db (snd (set this data w)) !! k = db w !! k)
  /\ db (snd (set this data w)) !! credsId (session (config this))
     = db w !! credsId (session (config this)).
Proof.
  split.
  - intros k Hk. now apply set_frame.
  - apply set_frame, credsId_untouched.
Qed.

Lemma set_one_working (this : Manager) (type : category) (id : string)
  (v : value) (w : World) :
  plans w = [] -> 0 < maxRetries (config this) ->
  exists w', set_one this type id v w = (Ok tt, w') /\ plans w' = [].
Proof.
  intros Hplain Hmax. unfold set_one. rewrite try_catch_rethrow.
  destruct (truthy v).
  - unfold writeData, updateOne.
    destruct (write_plain this (EvUpdateOne (sessionPrefix this +:+ dataKey type id))
                (insert (sessionPrefix this +:+ dataKey type id)
                   {| doc_value := PText (stringify v);
                      doc_session := session (config this) |})
                ("Write data " +:+ dataKey type id) w Hplain Hmax)
      as (w' & Hrun & Hp & _).
    eauto.
  - unfold removeData, deleteOne.
    destruct (write_plain this (EvDeleteOne (sessionPrefix this +:+ dataKey type id))
                (delete (sessionPrefix this +:+ dataKey type id))
                ("Remove data " +:+ dataKey type id) w Hplain Hmax)
      as (w' & Hrun & Hp & _).
    eauto.
Qed.

Lemma set_ids_working (this : Manager) (type : category)
  (entries : list (string * value)) :
  forall w, plans w = [] -> 0 < maxRetries (config this) ->
    exists w', set_ids this type entries w = (Ok tt, w') /\ plans w' = [].
Proof.
  induction entries as [|[id v] entries IH]; intros w Hplain Hmax.
  - exists w. auto.
  - destruct (set_one_working this type id v w Hplain Hmax) as (w1 & Hone & Hp1).
    destruct (IH w1 Hp1 Hmax) as (w' & Hrest & Hp).
    exists w'. split; [|exact Hp].
    cbn [set_ids]. unfold bindM. now rewrite Hone.
Qed.

(** On a store that works [keys.set] returns. *)
Lemma set_working (this : Manager)
  (data : list (category * option (list (string * value)))) :
  forall w, plans w = [] -> 0 < maxRetries (config this) ->
    exists w', set this data w = (Ok tt, w') /\ plans w' = [].
Proof.
  induction data as [|[type [entries|]] data IH]; intros w Hplain Hmax.
  - exists w. auto.
  - destruct (set_ids_working this type entries w Hplain Hmax) as (w1 & Hids & Hp1).
    destruct (IH w1 Hp1 Hmax) as (w' & Hrest & Hp).
    exists w'. split; [|exact Hp].
    cbn [set]. unfold bindM. now rewrite Hids.
  - destruct (IH w Hplain Hmax) as (w' & Hrest & Hp).
    exists w'. split; [|exact Hp]. cbn [set]. unfold bindM, ret. exact Hrest.
Qed.

Lemma foldl_insert_ext {A : Type} (g g' : string -> A) (ids : list string) :
  (forall id, id ∈ ids -> g id = g' id) ->
  forall data : gmap string A,
    foldl (fun acc id => <[id := g id]> acc) data ids
    = foldl (fun acc id => <[id := g' id]> acc) data ids.
Proof.
  induction ids as [|id ids IH]; intros Hg data; [reflexivity|].
  cbn [foldl]. rewrite (Hg id) by (apply elem_of_cons; now left).
  apply IH. intros id' Hin. apply Hg, elem_of_cons. now right.
Qed.

(** X14: on a store that works, a [keys.set] does not change what
    [keys.get] answers for ids whose storage keys the delta does not
    name. *)
Theorem set_leaves_other_answers (this : Manager)
  (data : list (category * option (list (string * value))))
  (type : category) (ids : list string) (w : World) :
  plans w = [] -> 0 < maxRetries (config this) ->
  (forall id, id ∈ ids ->
     resolve (session (config this)) type id
     ∉ touched (session (config this)) data) ->
  fst (set this data w) = Ok tt
  /\ fst (get this type ids (snd (set this data w)))
     = fst (get this type ids w).
Proof.
  intros Hplain Hmax Hfree.
  destruct (set_working this data w Hplain Hmax) as (w1 & Hset & Hp1).
  pose proof (fun k Hk => set_frame this data k Hk w) as Hframe.
  rewrite Hset in Hframe |- *. cbn [fst snd] in Hframe |- *.
  split; [reflexivity|]. unfold get.
  destruct (get_from_working this type ids ∅ w1 Hp1 Hmax) as (w2 & -> & _).
  destruct (get_from_working this type ids ∅ w Hplain Hmax) as (w3 & -> & _).
  cbn [fst]. f_equal.
  apply foldl_insert_ext. intros id Hid. now rewrite Hframe by auto.
Qed.

Lemma set_leaves_other_answers_witness :
  fst (get Samples.main3 PreKey ["1"; "7"]
         (snd (set Samples.main3
                 [(Session, Some [("a", VNull); ("b", VStr "text")]);
                  (PreKey, Some [("2", VNum (Int 2))])]
                 (Samples.connected Samples.two_sessions []))))
  = fst (get Samples.main3 PreKey ["1"; "7"]
           (Samples.connected Samples.two_sessions [])).
Proof.
  apply (set_leaves_other_answers Samples.main3
           [(Session, Some [("a", VNull); ("b", VStr "text")]);
            (PreKey, Some [("2", VNum (Int 2))])]
           PreKey ["1"; "7"] (Samples.connected Samples.two_sessions [])).
  - reflexivity.
  - reflexivity.
  - intros id Hid. apply (bool_decide_unpack _).
    apply elem_of_cons in Hid as [->|Hid]; [vm_compute; exact I|].
    apply elem_of_cons in Hid as [->|Hid]; [vm_compute; exact I|].
    now apply elem_of_nil in Hid.
Defined.

(** X15: on a store that works, a value written through [keys.set] is gone
    after [keys.clear]: the record carries the manager's session and its
    key is not the credentials key, so the sweep takes it, and [keys.get]
    answers [null] for the id. *)
Theorem clear_removes_what_set_wrote (this : Manager) (type : category)
  (id : string) (v : value) (w : World) :
  plans w = [] -> 0 < maxRetries (config this) -> truthy v = true ->
  exists w1 w2,
    set this [(type, Some [(id, v)])] w = (Ok tt, w1)
    /\ db w1 !! resolve (session (config this)) type id
       = Some {| doc_value := PText (stringify v);
                 doc_session := session (config this) |}
    /\ clear this w1 = (Ok tt, w2)
    /\ db w2 !! resolve (session (config this)) type id = None
    /\ fst (get this type [id] w2) = Ok {[id := VNull]}.
Proof.
  intros Hplain Hmax Htruthy.
  destruct (write_plain this
              (EvUpdateOne (sessionPrefix this +:+ dataKey type id))
              (insert (sessionPrefix this +:+ dataKey type id)
                 {| doc_value := PText (stringify v);
                    doc_session := session (config this) |})
              ("Write data " +:+ dataKey type id) w Hplain Hmax)
    as (w1 & Hwrite & Hp1 & Hdb1).
  destruct (write_plain this
              (EvDeleteMany (session (config this))
                 (Some (sessionPrefix this +:+ "creds")))
              (filter (kept (session (config this))
                         (Some (sessionPrefix this +:+ "creds"))))
              "Clear session data" w1 Hp1 Hmax)
    as (w2 & Hclear & Hp2 & Hdb2).
  assert (Hgone : db w2 !! resolve (session (config this)) type id = None).
  { rewrite Hdb2, lookup_sweep, Hdb1, storage_key, lookup_insert_eq.
    unfold swept. cbn [doc_session].
    rewrite bool_decide_eq_true_2; [reflexivity|].
    split; [reflexivity|]. intros [= Heq]. revert Heq.
    apply resolve_ne_credsId. }
  exists w1, w2. split; [|split; [|split; [|split]]].
  - rewrite set_single, Htruthy. exact Hwrite.
  - rewrite Hdb1, storage_key. apply lookup_insert_eq.
  - exact Hclear.
  - exact Hgone.
  - now apply get_missing.
Qed.

Lemma clear_removes_what_set_wrote_witness :
  exists w1 w2,
    set Samples.main3 [(SenderKey, Some [("g1", VBuffer [x01; x02])])]
      Samples.fresh = (Ok tt, w1)
    /\ db w1 !! resolve (session (config Samples.main3)) SenderKey "g1"
       = Some {| doc_value := PText (stringify (VBuffer [x01; x02]));
                 doc_session := session (config Samples.main3) |}
    /\ clear Samples.main3 w1 = (Ok tt, w2)
    /\ db w2 !! resolve (session (config Samples.main3)) SenderKey "g1" = None
    /\ fst (get Samples.main3 SenderKey ["g1"] w2) = Ok {["g1" := VNull]}.
Proof.
  apply (clear_removes_what_set_wrote Samples.main3 SenderKey "g1"
           (VBuffer [x01; x02]) Samples.fresh); reflexivity.
Defined.

(** *** The session tag of a record and its key *)

Lemma grown_refl (session : string) (records : gmap string document) :
  grown session records records.
Proof. intros id d Hd. now left. Qed.

Lemma grown_eq (session : string) (before after : gmap string document) :
  after = before -> grown session before after.
Proof. intros ->. apply grown_refl. Qed.

Lemma grown_trans (session : string) (a b c : gmap string document) :
  grown session a b -> grown session b c -> grown session a c.
Proof.
  intros Hab Hbc id d Hd. destruct (Hbc id d Hd) as [Hb|Hnew]; [|now right].
  now apply Hab.
Qed.

Lemma grown_insert (session docId : string) (p : payload)
  (records : gmap string document) :
  grown session records
    (<[Namespace.sessionPrefix session +:+ docId :=
         {| doc_value := p; doc_session := session |}]> records).
Proof.
  intros id d Hd.
  destruct (decide (id = Namespace.sessionPrefix session +:+ docId)) as [->|Hne].
  - rewrite lookup_insert_eq in Hd. injection Hd as <-. right.
    split; [reflexivity|]. apply prefix_of_app.
  - rewrite lookup_insert_ne in Hd by congruence. now left.
Qed.

Lemma grown_delete (session k : string) (records : gmap string document) :
  grown session records (delete k records).
Proof.
  intros id d Hd. left.
  destruct (decide (id = k)) as [->|Hne].
  - now rewrite lookup_delete_eq in Hd.
  - now rewrite lookup_delete_ne in Hd by congruence.
Qed.

Lemma grown_filter (session : string) (P : string * document -> Prop)
  `{forall kd, Decision (P kd)} (records : gmap string document) :
  grown session records (filter P records).
Proof.
  intros id d Hd. left. now apply map_lookup_filter_Some in Hd as [Hd _].
Qed.

Lemma set_one_grown (this : Manager) (type : category) (id : string)
  (v : value) (w : World) :
  grown (session (config this)) (db w) (db (snd (set_one this type id v w))).
Proof.
  pose proof (set_one_outcome this type id v w) as Hout.
  destruct (set_one this type id v w) as [[[]|e] w']; cbn [snd]; rewrite Hout.
  - destruct (truthy v); [apply grown_insert|apply grown_delete].
  - apply grown_refl.
Qed.

Lemma set_ids_grown (this : Manager) (type : category)
  (entries : list (string * value)) :
  forall w,
    grown (session (config this)) (db w) (db (snd (set_ids this type entries w))).
Proof.
  induction entries as [|[id v] entries IH]; intros w; [apply grown_refl|].
  cbn [set_ids]. unfold bindM.
  pose proof (set_one_grown this type id v w) as Hone.
  destruct (set_one this type id v w) as [[[]|e] w1]; cbn [snd] in Hone |- *.
  - eapply grown_trans; [exact Hone|apply IH].
  - exact Hone.
Qed.

Lemma set_grown (this : Manager)
  (data : list (category * option (list (string * value)))) :
  forall w, grown (session (config this)) (db w) (db (snd (set this data w))).
Proof.
  induction data as [|[type [entries|]] data IH]; intros w; [apply grown_refl| |].
  - cbn [set]. unfold bindM.
    pose proof (set_ids_grown this type entries w) as Hids.
    destruct (set_ids this type entries w) as [[[]|e] w1]; cbn [snd] in Hids |- *.
    + eapply grown_trans; [exact Hids|apply IH].
    + exact Hids.
  - cbn [set]. unfold bindM, ret. apply IH.
Qed.

Lemma sweep_grown (this : Manager) (except : option string) (name : string)
  (w : World) :
  grown (session (config this)) (db w)
    (db (snd (executeWithRetry this
                (deleteMany (session (config this)) except) name w))).
Proof.
  pose proof (executeWithRetry_meets this _ _ name
                (deleteMany_meets (session (config this)) except) w) as Hrun.
  destruct (executeWithRetry this _ name w) as [[[]|e] w']; cbn [snd];
    rewrite Hrun; [apply grown_filter; apply _|apply grown_refl].
Qed.

Lemma disconnect_db (w : World) : db (snd (disconnect w)) = db w.
Proof.
  unfold disconnect. destruct (isConnected w); [|reflexivity].
  unfold mongoose_disconnect, bindM.
  pose proof (driver_db EvDisconnect w) as Hdb.
  destruct (driver EvDisconnect w) as [[[]|e] w1]; exact Hdb.
Qed.

Lemma bind_ret_db {A B : Type} (m : M World A) (f : A -> B) (w : World) :
  db (snd ((x <- m ;; ret (f x)) w)) = db (snd (m w)).
Proof. unfold bindM, ret. now destruct (m w) as [[a|e] w']. Qed.

Lemma serve_grown (this : Manager) (rq : request) (w : World) :
  grown (session (config this)) (db w) (db (snd (serve this rq w))).
Proof.
  destruct rq as [type ids|data| | | |creds|collection docId| ];
    unfold serve; rewrite bind_ret_db.
  - apply grown_eq, get_from_db.
  - apply set_grown.
  - apply sweep_grown.
  - apply sweep_grown.
  - apply sweep_grown.
  - unfold saveCredentials.
    destruct (negb (ValidationUtils.isValidAuthCreds creds)); [apply grown_refl|].
    pose proof (writeData_outcome this "creds" creds w) as Hout.
    destruct (writeData this "creds" creds w) as [[[]|e] w']; cbn [snd];
      rewrite Hout; [apply grown_insert|apply grown_refl].
  - apply grown_eq. unfold query.
    pose proof (queryDocument_outcome this docId w) as Hq.
    destruct (queryDocument this docId w) as [[found|e] w1]; [apply Hq|exact Hq].
  - apply grown_eq, disconnect_db.
Qed.

Lemma serve_all_grown (this : Manager) (rqs : list request) :
  forall w,
    grown (session (config this)) (db w) (db (snd (serve_all this rqs w))).
Proof.
  induction rqs as [|rq rqs IH]; intros w; [apply grown_refl|].
  cbn [serve_all].
  pose proof (serve_grown this rq w) as Hone.
  destruct (serve this rq w) as [r w1]. cbn [snd] in Hone.
  specialize (IH w1). destruct (serve_all this rqs w1) as [rs w2].
  cbn [snd] in IH |- *. eapply grown_trans; eassumption.
Qed.

(** X16: the managers keep the collection well tagged.  If every record's
    [_id] starts with the record's [session] and a hyphen, the same holds
    after any sequence of requests to a manager, whatever the driver does:
    a record that is there afterwards was there before, or was written by
    this manager under its own prefix and with its own session.  So the
    sweeps, which select by the [session] field, take records under the
    session's prefix only. *)
Theorem requests_keep_records_tagged (this : Manager) (rqs : list request)
  (w : World) :
  well_tagged (db w) -> well_tagged (db (snd (serve_all this rqs w))).
Proof.
  intros Htagged id d Hd.
  destruct (serve_all_grown this rqs w id d Hd) as [Hold|[Hs Hp]].
  - now apply Htagged.
  - now rewrite Hs.
Qed.

Lemma requests_keep_records_tagged_witness :
  well_tagged
    (db (snd (serve_all Samples.main3
                [ReqSet [(PreKey, Some [("1", VNum (Int 1))])];
                 ReqSaveCredentials MoreSamples.sample_creds;
                 ReqClear]
                Samples.fresh))).
Proof.
  apply (requests_keep_records_tagged Samples.main3).
  intros id d Hd. cbn in Hd. rewrite lookup_empty in Hd. discriminate Hd.
Defined.

(** *** Records outside the manager's name space *)

Lemma touched_prefixed (session : string)
  (data : list (category * option (list (string * value)))) (k : string) :
  k ∈ touched session data ->
  startsWith k (Namespace.sessionPrefix session) = true.
Proof.
  induction data as [|[type [entries|]] data IH]; cbn [touched]; intros Hin.
  - now apply elem_of_nil in Hin.
  - apply elem_of_app in Hin as [Hin|Hin]; [|now apply IH].
    apply list_elem_of_fmap in Hin as ([id v] & -> & _).
    apply prefix_of_app.
  - now apply IH.
Qed.

Lemma sweep_frame (this : Manager) (except : option string) (name : string)
  (w : World) (k : string) :
  (forall d, db w !! k = Some d -> doc_session d <> session (config this)) ->
  db (snd (executeWithRetry this
             (deleteMany (session (config this)) except) name w)) !! k
  = db w !! k.
Proof.
  intros Hother.
  pose proof (executeWithRetry_meets this _ _ name
                (deleteMany_meets (session (config this)) except) w) as Hrun.
  destruct (executeWithRetry this _ name w) as [[[]|e] w']; cbn [snd];
    rewrite Hrun; [|reflexivity].
  rewrite lookup_sweep. unfold swept.
  destruct (db w !! k) as [d|] eqn:Hd; [|reflexivity].
  rewrite bool_decide_eq_false_2; [reflexivity|].
  intros [Hs _]. now apply (Hother d).
Qed.

Lemma serve_frame (this : Manager) (rq : request) (w : World) (k : string) :
  startsWith k (sessionPrefix this) = false ->
  (forall d, db w !! k = Some d -> doc_session d <> session (config this)) ->
  db (snd (serve this rq w)) !! k = db w !! k.
Proof.
  intros Hout Hother.
  destruct rq as [type ids|data| | | |creds|collection docId| ];
    unfold serve; rewrite bind_ret_db.
  - unfold get. now rewrite get_from_db.
  - apply set_frame. intros Hin. apply touched_prefixed in Hin.
    unfold sessionPrefix in Hout. congruence.
  - now apply sweep_frame.
  - now apply sweep_frame.
  - now apply sweep_frame.
  - unfold saveCredentials.
    destruct (negb (ValidationUtils.isValidAuthCreds creds)); [reflexivity|].
    pose proof (writeData_outcome this "creds" creds w) as Hwrite.
    destruct (writeData this "creds" creds w) as [[[]|e] w']; cbn [snd];
      rewrite Hwrite; [|reflexivity].
    apply lookup_insert_ne. intros <-.
    unfold startsWith in Hout. now rewrite prefix_of_app in Hout.
  - unfold query. pose proof (queryDocument_outcome this docId w) as Hq.
    destruct (queryDocument this docId w) as [[found|e] w1]; cbn [snd].
    + destruct Hq as [_ ->]. reflexivity.
    + now rewrite Hq.
  - now rewrite disconnect_db.
Qed.

(** X17: a manager leaves alone what is outside its name space.  A key
    that does not start with the manager's prefix, and under which there is
    no record or one that carries another session, is the same after any
    sequence of requests to the manager as before, whatever the driver
    does.  (Keys of another session can start with the manager's prefix:
    sessions ["a"] and ["a-b"]; those are not covered.) *)
Theorem other_sessions_are_left_alone (this : Manager) (rqs : list request)
  (w : World) (k : string) :
  startsWith k (sessionPrefix this) = false ->
  (forall d, db w !! k = Some d -> doc_session d <> session (config this)) ->
  db (snd (serve_all this rqs w)) !! k = db w !! k.
Proof.
  intros Hout. revert w.
  induction rqs as [|rq rqs IH]; intros w Hother; [reflexivity|].
  cbn [serve_all].
  pose proof (serve_frame this rq w k Hout Hother) as Hone.
  destruct (serve this rq w) as [r w1]. cbn [snd] in Hone.
  specialize (IH w1). destruct (serve_all this rqs w1) as [rs w2].
  cbn [snd] in IH |- *. rewrite IH; [exact Hone|].
  intros d Hd. rewrite Hone in Hd. now apply Hother.
Qed.

Lemma other_sessions_are_left_alone_witness :
  db (snd (serve_all Samples.main3
             [ReqSet [(PreKey, Some [("1", VNull); ("2", VNum (Int 2))])];
              ReqRemoveAllSessionData]
             (Samples.connected Samples.two_sessions [Fails Samples.timeout])))
    !! "other-pre-key-1"
  = Samples.two_sessions !! "other-pre-key-1".
Proof.
  apply (other_sessions_are_left_alone Samples.main3
           [ReqSet [(PreKey, Some [("1", VNull); ("2", VNum (Int 2))])];
            ReqRemoveAllSessionData]
           (Samples.connected Samples.two_sessions [Fails Samples.timeout])
           "other-pre-key-1").
  - reflexivity.
  - intros d Hd. vm_compute in Hd. injection Hd as <-. discriminate.
Defined.

End WriteFacts.

Module AuthFacts.
Import Outcome Eff JS Store Namespace Mongo AppDataSync Shapes Bootstrap AuthState.
Import JSFacts GatewayFacts StoreFacts KeyStoreFacts ValidationFacts.
Import CodecFacts RetryFacts ReadFacts WriteFacts.
Local Open Scope eff_scope.
Local Open Scope list_scope.

Lemma isValidAuthCreds_truthy (creds : value) :
  ValidationUtils.isValidAuthCreds creds = true -> truthy creds = true.
Proof.
  unfold ValidationUtils.isValidAuthCreds. intros Hv.
  repeat (apply andb_prop in Hv as [Hv _]). exact Hv.
Qed.

Section WithRuntime.
Context {R : Type} `{Runtime R}.

(** [getAuthState] step by step: the read, then the bootstrap when what
    was read is falsy. *)
Lemma getAuthState_run (this : Manager) (w : World) (r : R) :
  getAuthState this (w, r)
  = match readData this "creds" w with
    | (Ok stored, w') =>
        if truthy stored then (Ok (Stored stored), (w', r))
        else match initAuthCreds r with
             | (Ok creds, r') => (Ok (Fresh creds), (w', r'))
             | (Throw e, r') => (Throw e, (w', r'))
             end
    | (Throw e, w') => (Throw e, (w', r))
    end.
Proof.
  unfold getAuthState, bindM, on_world, on_runtime, ret. cbn [fst snd].
  destruct (readData this "creds" w) as [[stored|e] w']; [|reflexivity].
  destruct (truthy stored); [reflexivity|]. cbn [fst snd].
  now destruct (initAuthCreds r) as [[creds|e] r'].
Qed.

(** X18: opening a session never writes.  [useMongoAuthState] leaves the
    collection as it is, also when it bootstraps new credentials: they are
    in memory only until [saveCreds] is called.  With a configuration the
    constructor refuses, it throws the constructor's error before anything
    is read or drawn. *)
Theorem useMongoAuthState_never_writes (uri : string) (given : MongoConfig)
  (w : World) (r : R) :
  db (fst (snd (useMongoAuthState uri given (w, r)))) = db w
  /\ (forall e, new_MongoSessionManager uri given = Throw e ->
        useMongoAuthState uri given (w, r) = (Throw e, (w, r))).
Proof.
  unfold useMongoAuthState. split.
  - destruct (new_MongoSessionManager uri given) as [manager|e]; [|reflexivity].
    unfold bindM at 1. rewrite getAuthState_run.
    pose proof (readData_outcome manager "creds" w) as Hread.
    destruct (readData manager "creds" w) as [[stored|e] w']; [|exact Hread].
    destruct Hread as [_ Hdb].
    destruct (truthy stored); [exact Hdb|].
    destruct (initAuthCreds r) as [[creds|e] r']; exact Hdb.
  - intros e ->. reflexivity.
Qed.

Lemma saveCredentials_working (this : Manager) (creds : value) (w : World) :
  plans w = [] -> 0 < maxRetries (config this) ->
  ValidationUtils.isValidAuthCreds creds = true ->
  exists w1,
    saveCredentials this creds w = (Ok tt, w1) /\ plans w1 = []
    /\ db w1 = <[credsId (session (config this)) :=
                   {| doc_value := PText (stringify creds);
                      doc_session := session (config this) |}]> (db w).
Proof.
  intros Hplain Hmax Hvalid. unfold saveCredentials. rewrite Hvalid. cbn [negb].
  unfold writeData, updateOne.
  apply (write_plain this (EvUpdateOne (sessionPrefix this +:+ "creds"))
           (insert (sessionPrefix this +:+ "creds")
              {| doc_value := PText (stringify creds);
                 doc_session := session (config this) |})
           ("Write data " +:+ "creds") w Hplain Hmax).
Qed.

(** What [getAuthState] gives on a store that works, by the credentials
    record. *)
Lemma getAuthState_working (this : Manager) (w : World) (r : R) (creds : value) :
  plans w = [] -> 0 < maxRetries (config this) ->
  stored_value (db w !! credsId (session (config this))) = Ok creds ->
  exists w',
    getAuthState this (w, r)
    = (if truthy creds then (Ok (Stored creds), (w', r))
       else match initAuthCreds r with
            | (Ok fresh, r') => (Ok (Fresh fresh), (w', r'))
            | (Throw e, r') => (Throw e, (w', r'))
            end).
Proof.
  intros Hplain Hmax Hstored.
  destruct (readData_working this "creds" w Hplain Hmax) as (w' & Hread & _).
  change (sessionPrefix this +:+ "creds") with (credsId (session (config this)))
    in Hread.
  rewrite Hstored in Hread.
  exists w'. now rewrite getAuthState_run, Hread.
Qed.

(** X19: credentials saved are the credentials loaded.  On a store that
    works, [saveCredentials] of credentials that pass [isValidAuthCreds]
    and are portable returns, and the next [getAuthState] has exactly
    these credentials as [state.creds]; it bootstraps nothing, the state
    of the random source is untouched. *)
Theorem saved_credentials_are_loaded (this : Manager) (creds : value)
  (w : World) (r : R) :
  plans w = [] -> 0 < maxRetries (config this) ->
  ValidationUtils.isValidAuthCreds creds = true -> portable creds = true ->
  exists w1 w2,
    saveCredentials this creds w = (Ok tt, w1)
    /\ getAuthState this (w1, r) = (Ok (Stored creds), (w2, r)).
Proof.
  intros Hplain Hmax Hvalid Hport.
  destruct (saveCredentials_working this creds w Hplain Hmax Hvalid)
    as (w1 & Hsave & Hp1 & Hdb1).
  destruct (getAuthState_working this w1 r creds Hp1 Hmax) as (w2 & Hload).
  { rewrite Hdb1, lookup_insert_eq. cbn [stored_value doc_value].
    now apply parse_stringify_portable. }
  rewrite (isValidAuthCreds_truthy creds Hvalid) in Hload.
  exists w1, w2. auto.
Qed.

(** X20: the two sweeps and the credentials.  After [saveCredentials] on a
    store that works, [clearSessionData] keeps the credentials record, and
    the next [getAuthState] loads the saved credentials;
    [removeAllSessionData] removes it, and the next [getAuthState]
    bootstraps: its credentials are those [initAuthCreds] makes, and it
    throws when [initAuthCreds] does. *)
Theorem sweeps_and_credentials (this : Manager) (creds : value)
  (w : World) (r : R) :
  plans w = [] -> 0 < maxRetries (config this) ->
  ValidationUtils.isValidAuthCreds creds = true -> portable creds = true ->
  (exists w1 w2 w3,
     saveCredentials this creds w = (Ok tt, w1)
     /\ clearSessionData this w1 = (Ok tt, w2)
     /\ getAuthState this (w2, r) = (Ok (Stored creds), (w3, r)))
  /\ (exists w1 w2,
        saveCredentials this creds w = (Ok tt, w1)
        /\ removeAllSessionData this w1 = (Ok tt, w2)
        /\ db w2 !! credsId (session (config this)) = None
        /\ fst (getAuthState this (w2, r))
           = match fst (initAuthCreds r) with
             | Ok fresh => Ok (Fresh fresh)
             | Throw e => Throw e
             end).
Proof.
  intros Hplain Hmax Hvalid Hport.
  destruct (saveCredentials_working this creds w Hplain Hmax Hvalid)
    as (w1 & Hsave & Hp1 & Hdb1).
  split.
  - destruct (write_plain this
                (EvDeleteMany (session (config this))
                   (Some (sessionPrefix this +:+ "creds")))
                (filter (kept (session (config this))
                           (Some (sessionPrefix this +:+ "creds"))))
                "Clear session data" w1 Hp1 Hmax)
      as (w2 & Hclear & Hp2 & Hdb2).
    destruct (getAuthState_working this w2 r creds Hp2 Hmax) as (w3 & Hload).
    { rewrite Hdb2, lookup_sweep, Hdb1, lookup_insert_eq.
      change (sessionPrefix this +:+ "creds")
        with (credsId (session (config this))).
      rewrite (proj1 (swept_cases _ (credsId (session (config this))) _)).
      cbn [stored_value doc_value]. now apply parse_stringify_portable. }
    rewrite (isValidAuthCreds_truthy creds Hvalid) in Hload.
    exists w1, w2, w3. auto.
  - destruct (write_plain this
                (EvDeleteMany (session (config this)) None)
                (filter (kept (session (config this)) None))
                "Remove all session data" w1 Hp1 Hmax)
      as (w2 & Hremove & Hp2 & Hdb2).
    assert (Hgone : db w2 !! credsId (session (config this)) = None).
    { rewrite Hdb2, lookup_sweep, Hdb1, lookup_insert_eq.
      unfold swept. cbn [doc_session].
      rewrite bool_decide_eq_true_2; [reflexivity|].
      split; [reflexivity|discriminate]. }
    destruct (getAuthState_working this w2 r VNull Hp2 Hmax) as (w3 & Hload).
    { now rewrite Hgone. }
    exists w1, w2. split; [exact Hsave|]. split; [exact Hremove|].
    split; [exact Hgone|].
    rewrite Hload. cbn [truthy].
    now destruct (initAuthCreds r) as [[fresh|e] r'].
Qed.

End WithRuntime.

Lemma saved_credentials_are_loaded_witness :
  exists w1 w2,
    saveCredentials Samples.main3 MoreSamples.sample_creds Samples.fresh
    = (Ok tt, w1)
    /\ getAuthState (R := N) Samples.main3 (w1, 0%N)
       = (Ok (Stored MoreSamples.sample_creds), (w2, 0%N)).
Proof.
  apply (saved_credentials_are_loaded (R := N) Samples.main3
           MoreSamples.sample_creds Samples.fresh 0%N); reflexivity.
Defined.

Lemma sweeps_and_credentials_witness :
  exists w1 w2 w3,
    saveCredentials Samples.main3 MoreSamples.sample_creds
      (Samples.connected Samples.two_sessions []) = (Ok tt, w1)
    /\ clearSessionData Samples.main3 w1 = (Ok tt, w2)
    /\ getAuthState (R := N) Samples.main3 (w2, 0%N)
       = (Ok (Stored MoreSamples.sample_creds), (w3, 0%N)).
Proof.
  apply (proj1 (sweeps_and_credentials (R := N) Samples.main3
                  MoreSamples.sample_creds
                  (Samples.connected Samples.two_sessions []) 0%N
                  eq_refl eq_refl eq_refl eq_refl)).
Defined.

End AuthFacts.

Module SyncFacts.
Import Outcome Text Base64 Base64Facts JS TimestampUtils AppDataSync.
Local Open Scope list_scope.

Lemma or_else_zero (a : option value) :
  or_else (Some (or_else a zero)) zero = or_else a zero.
Proof.
  unfold or_else. destruct a as [v|]; [|reflexivity].
  destruct (truthy v) eqn:Hv; [now rewrite Hv|reflexivity].
Qed.

Lemma or_else_again (c : option value) (d : value) :
  or_else (Some (or_else c d)) d = or_else c d.
Proof.
  unfold or_else. destruct c as [v|].
  - destruct (truthy v) eqn:Hv; [now rewrite Hv|]. now destruct (truthy d).
  - now destruct (truthy d).
Qed.

(** The body of [fromObject] on an argument that is not [null]. *)
Lemma fromObject_body_eq (args : value) :
  args <> VNull ->
  fromObject_body args
  = bind (parseTimestamp (timestamp_view (prop "timestamp" args)))
      (fun timestamp =>
         Ok (VObj [("keyData",
                     match prop "keyData" args with
                     | Some (VStr s) => allocateForBase64 s
                     | Some (VArr l) => VUint8Array (Buffer_from_array l)
                     | Some (VBuffer bs) => VBuffer bs
                     | Some (VUint8Array bs) => VUint8Array bs
                     | _ => VUint8Array []
                     end);
                   ("fingerprint",
                     VObj [("rawId",
                             or_else (opt_prop "rawId" (prop "fingerprint" args)) zero);
                           ("currentIndex",
                             or_else (opt_prop "currentIndex" (prop "fingerprint" args))
                               (or_else (opt_prop "rawId" (prop "fingerprint" args))
                                  zero));
                           ("deviceIndexes",
                             match isArray (opt_prop "deviceIndexes"
                                              (prop "fingerprint" args)) with
                             | Some l => VArr l
                             | None => VArr []
                             end)]);
                   ("timestamp", VNum timestamp)])).
Proof.
  intros Hargs. unfold fromObject_body.
  destruct args as [ | b | n | s | l | fs | bs | bs ]; try contradiction;
    destruct (parseTimestamp _) as [ts|e]; cbn [bind]; try reflexivity;
    repeat f_equal;
    match goal with
    | |- context [prop "keyData" ?a] =>
        destruct (prop "keyData" a) as [[ | | | | | | | ]|]; reflexivity
    end.
Qed.

Lemma allocateForBase64_zeros (str : string) :
  exists n, allocateForBase64 str = VUint8Array (repeat x00 n).
Proof.
  unfold allocateForBase64.
  destruct (Z.of_nat (String.length str) =? 0); [now exists 1%nat|eauto].
Qed.

(** X21: [fromObject] is a normalization: applied to its own result it
    changes nothing.  The defaults it fills in ([rawId] 0, [currentIndex]
    from [rawId], no device indexes, the key data as a typed array, the
    timestamp as a number) are fixed points. *)
Theorem fromObject_idempotent (args result : value) :
  fromObject args = Ok result -> fromObject result = Ok result.
Proof.
  unfold fromObject at 1.
  destruct (fromObject_body args) as [r|e] eqn:Hbody; [|discriminate].
  cbn [catch]. intros [= <-].
  assert (Hargs : args <> VNull) by (intros ->; discriminate Hbody).
  rewrite (fromObject_body_eq args Hargs) in Hbody.
  destruct (parseTimestamp (timestamp_view (prop "timestamp" args)))
    as [ts|e]; [|discriminate].
  cbn [bind] in Hbody. injection Hbody as <-.
  unfold fromObject. rewrite fromObject_body_eq by discriminate.
  cbn [prop assoc opt_prop String.eqb Ascii.eqb Bool.eqb
         timestamp_view parseTimestamp bind catch].
  rewrite !or_else_zero, or_else_again.
  repeat f_equal.
  - destruct (prop "keyData" args) as [[ | | | s | l | | bs | bs ]|];
      try reflexivity.
    destruct (allocateForBase64_zeros s) as [n ->]. reflexivity.
  - now destruct (isArray (opt_prop "deviceIndexes" (prop "fingerprint" args))).
Qed.

Lemma fromObject_idempotent_witness :
  fromObject (VObj [("keyData", VArr [VNum (Int 1); VNum (Int 258)]);
                    ("timestamp", VStr "1690000000")])
  = Ok (VObj [("keyData", VUint8Array [x01; x02]);
              ("fingerprint",
                VObj [("rawId", zero); ("currentIndex", zero);
                      ("deviceIndexes", VArr [])]);
              ("timestamp", VNum (Int 1690000000))])
  /\ fromObject (VObj [("keyData", VUint8Array [x01; x02]);
                       ("fingerprint",
                         VObj [("rawId", zero); ("currentIndex", zero);
                               ("deviceIndexes", VArr [])]);
                       ("timestamp", VNum (Int 1690000000))])
     = Ok (VObj [("keyData", VUint8Array [x01; x02]);
                 ("fingerprint",
                   VObj [("rawId", zero); ("currentIndex", zero);
                         ("deviceIndexes", VArr [])]);
                 ("timestamp", VNum (Int 1690000000))]).
Proof.
  split; [reflexivity|].
  apply (fromObject_idempotent
           (VObj [("keyData", VArr [VNum (Int 1); VNum (Int 258)]);
                  ("timestamp", VStr "1690000000")])).
  reflexivity.
Defined.

(** X22: key data given as a string is not decoded: whatever the text,
    [fromObject] returns for it the array that [allocateForBase64] makes,
    which holds zero bytes only. *)
Theorem fromObject_string_keyData_is_zeroed (args result : value) (s : string) :
  prop "keyData" args = Some (VStr s) ->
  fromObject args = Ok result ->
  prop "keyData" result = Some (allocateForBase64 s)
  /\ exists n, allocateForBase64 s = VUint8Array (repeat x00 n).
Proof.
  intros Hkey. unfold fromObject.
  destruct (fromObject_body args) as [r|e] eqn:Hbody; [|discriminate].
  cbn [catch]. intros [= <-].
  assert (Hargs : args <> VNull) by (intros ->; discriminate Hbody).
  rewrite (fromObject_body_eq args Hargs), Hkey in Hbody.
  destruct (parseTimestamp (timestamp_view (prop "timestamp" args)))
    as [ts|e]; [|discriminate].
  cbn [bind] in Hbody. injection Hbody as <-.
  split; [reflexivity|apply allocateForBase64_zeros].
Qed.

Lemma fromObject_string_keyData_is_zeroed_witness :
  prop "keyData"
    (VObj [("keyData", VUint8Array [x00; x00; x00]);
           ("fingerprint",
             VObj [("rawId", VNum (Int 3)); ("currentIndex", VNum (Int 3));
                   ("deviceIndexes", VArr [])]);
           ("timestamp", VNum (Int 5))])
  = Some (allocateForBase64 "AQID")
  /\ exists n, allocateForBase64 "AQID" = VUint8Array (repeat x00 n).
Proof.
  apply (fromObject_string_keyData_is_zeroed
           (VObj [("keyData", VStr "AQID");
                  ("fingerprint", VObj [("rawId", VNum (Int 3))]);
                  ("timestamp", VNum (Int 5))])
           _ "AQID"); reflexivity.
Defined.

End SyncFacts.

Module DecimalFacts.
Import Outcome Text JS TimestampUtils AppDataSync Shapes.












End DecimalFacts.

Module KeyFacts.
Import Outcome Eff JS Base64 Bootstrap.
Import BootstrapFacts.
Local Open Scope list_scope.

(** [generateSignalPubKey] puts back the byte that [generateKeyPair] cut
    off, when that byte was the version byte 5. *)
Lemma generateSignalPubKey_restores (pubKey : list byte) :
  length pubKey = 33%nat -> hd x00 pubKey = x05 ->
  generateSignalPubKey (tl pubKey) = pubKey.
Proof.
  destruct pubKey as [|b rest]; [discriminate|].
  cbn [length hd tl]. intros Hlen ->. unfold generateSignalPubKey.
  replace (length rest =? 33)%nat with false; [reflexivity|].
  symmetry. apply Nat.eqb_neq. lia.
Qed.

Section WithRuntime.
Context {R : Type} `{Runtime R}.

Lemma generateKeyPair_Ok (r r' : R) (pair : KeyPair) :
  generateKeyPair r = (Ok pair, r') ->
  exists pubKey,
    curve_generateKeyPair r = (Ok (pubKey, private pair), r')
    /\ public pair = tl pubKey.
Proof.
  unfold generateKeyPair. intros Hrun. apply wrap_Ok in Hrun.
  apply bindM_Ok in Hrun as ([pubKey privKey] & r1 & Hcurve & Hret).
  unfold ret in Hret. injection Hret as <- <-.
  exists pubKey. split; [exact Hcurve|reflexivity].
Qed.

Lemma sign_Ok (privateKey data : list byte) (r r' : R) (sig : list byte) :
  sign privateKey data r = (Ok sig, r') ->
  curve_calculateSignature privateKey data r = (Ok sig, r').
Proof. apply wrap_Ok. Qed.

Lemma createSignedKeyPair_Ok (identityKeyPair : KeyPair) (id : Z) (r r' : R)
  (signed : SignedKeyPair) :
  createSignedKeyPair identityKeyPair id r = (Ok signed, r') ->
  keyId signed = id
  /\ exists pubKey r1 r2,
       curve_generateKeyPair r = (Ok (pubKey, private (keyPair signed)), r1)
       /\ public (keyPair signed) = tl pubKey
       /\ curve_calculateSignature (private identityKeyPair)
            (generateSignalPubKey (public (keyPair signed))) r1
          = (Ok (signature signed), r2)
       /\ timestampS signed = fst (Date_now r2) / 1000.
Proof.
  unfold createSignedKeyPair. intros Hrun. apply wrap_Ok in Hrun.
  apply bindM_Ok in Hrun as (preKey & r1 & Hpair & Hrun).
  apply bindM_Ok in Hrun as (sig & r2 & Hsign & Hrun).
  apply sign_Ok in Hsign.
  apply generateKeyPair_Ok in Hpair as (pubKey & Hcurve & Hpublic).
  destruct (Date_now r2) as [now r3] eqn:Hnow.
  injection Hrun as <- <-. cbn [keyId keyPair signature timestampS].
  split; [reflexivity|].
  exists pubKey, r1, r2. rewrite Hnow. auto.
Qed.

(** X24: what [createSignedKeyPair] signs.  The key pair it returns has as
    public key the curve library's public key without its first byte, and
    the signature was computed once, with the private key of the identity
    pair, over that public key with the byte 5 put in front: when the
    library's key has 33 bytes and starts with 5, the message signed is
    the library's key itself.  The key id is the one asked for and the
    time stamp is the clock in whole seconds. *)
Theorem createSignedKeyPair_signs_prefixed_key (identityKeyPair : KeyPair)
  (id : Z) (r r' : R) (signed : SignedKeyPair) :
  createSignedKeyPair identityKeyPair id r = (Ok signed, r') ->
  keyId signed = id
  /\ exists pubKey r1 r2,
       curve_generateKeyPair r = (Ok (pubKey, private (keyPair signed)), r1)
       /\ public (keyPair signed) = tl pubKey
       /\ curve_calculateSignature (private identityKeyPair)
            (generateSignalPubKey (tl pubKey)) r1
          = (Ok (signature signed), r2)
       /\ timestampS signed = fst (Date_now r2) / 1000
       /\ (length pubKey = 33%nat -> hd x00 pubKey = x05 ->
           generateSignalPubKey (tl pubKey) = pubKey).
Proof.
  intros Hrun.
  apply createSignedKeyPair_Ok in Hrun
    as (Hid & pubKey & r1 & r2 & Hcurve & Hpublic & Hsig & Hts).
  split; [exact Hid|]. exists pubKey, r1, r2.
  rewrite <- Hpublic.
  repeat split; try assumption.
  rewrite Hpublic. apply generateSignalPubKey_restores.
Qed.

(** X25: the bundle of [initAuthCreds] is consistent and starts from the
    beginning.  Its signed pre-key has key id 1 and a signature computed
    with the private key of the bundle's own [signedIdentityKey] over the
    pre-key's public key with the byte 5 in front; the pre-key counters
    are 1, the sync counter is 0, nothing is registered and no optional
    field is set.  When anything fails, the error is a
    [SessionValidationError] with the fixed message and no bundle is
    returned. *)
Theorem initAuthCreds_bundle (r : R) :
  match initAuthCreds r with
  | (Ok creds, _) =>
      keyId (signedPreKey creds) = 1
      /\ (exists r1 r2,
            curve_calculateSignature (private (signedIdentityKey creds))
              (generateSignalPubKey (public (keyPair (signedPreKey creds)))) r1
            = (Ok (signature (signedPreKey creds)), r2))
      /\ nextPreKeyId creds = 1 /\ firstUnuploadedPreKeyId creds = 1
      /\ accountSyncCounter creds = 0 /\ registered creds = false
      /\ processedHistoryMessages creds = []
      /\ pairingCode creds = None /\ lastPropHash creds = None
      /\ routingInfo creds = None
  | (Throw e, _) =>
      exists cause,
        e = SessionValidationError
              "Failed to initialize authentication credentials" cause
  end.
Proof.
  destruct (initAuthCreds r) as [[creds|e] r'] eqn:Hrun.
  - unfold initAuthCreds in Hrun. apply wrap_Ok in Hrun.
    apply bindM_Ok in Hrun as (identityKey & r1 & _ & Hrun).
    apply bindM_Ok in Hrun as (noise & r2 & _ & Hrun).
    apply bindM_Ok in Hrun as (pairing & r3 & _ & Hrun).
    apply bindM_Ok in Hrun as (preKey & r4 & Hsigned & Hrun).
    apply bindM_Ok in Hrun as (random2 & r5 & _ & Hrun).
    apply bindM_Ok in Hrun as (secret & r6 & _ & Hrun).
    apply bindM_Ok in Hrun as (uuid1 & r7 & _ & Hrun).
    apply bindM_Ok in Hrun as (uuid2 & r8 & _ & Hrun).
    apply bindM_Ok in Hrun as (identity & r9 & _ & Hrun).
    apply bindM_Ok in Hrun as (backup & r10 & _ & Hrun).
    unfold ret in Hrun. injection Hrun as <- _.
    apply createSignedKeyPair_Ok in Hsigned
      as (Hid & pubKey & ra & rb & _ & _ & Hsig & _).
    cbn. repeat split; try reflexivity; [exact Hid|eauto].
  - unfold initAuthCreds, wrap, try_catch, throw in Hrun.
    destruct (bindM generateKeyPair _ r) as [[creds|e0] r0];
      [discriminate|].
    injection Hrun as <- _. eauto.
Qed.

End WithRuntime.

Lemma createSignedKeyPair_signs_prefixed_key_witness :
  exists signed r',
    createSignedKeyPair (R := N)
      {| private := [x01]; public := [x02] |} 7 0%N = (Ok signed, r')
    /\ keyId signed = 7.
Proof.
  destruct (createSignedKeyPair (R := N)
              {| private := [x01]; public := [x02] |} 7 0%N)
    as [[signed|e] r'] eqn:Hrun.
  - exists signed, r'. split; [reflexivity|].
    exact (proj1 (createSignedKeyPair_signs_prefixed_key (R := N) _ 7 0%N r'
                    signed Hrun)).
  - vm_compute in Hrun. discriminate Hrun.
Defined.

End KeyFacts.

Module AllocateFacts.
Import Outcome Base64 Base64Facts JS AppDataSync.
Local Open Scope list_scope.

(** The character at an index counted in [nat] is the padding sign. *)
Lemma is_pad_at_nat (s : string) (i : nat) :
  is_pad_at s (Z.of_nat i)
  = match String.get i s with
    | Some c => Ascii.eqb c "="
    | None => false
    end.
Proof.
  unfold is_pad_at. rewrite Nat2Z.id.
  destruct (String.get i s); [|reflexivity].
  replace (0 <=? Z.of_nat i) with true; [reflexivity|].
  symmetry. apply Z.leb_le. lia.
Qed.

(** On a text whose length is a positive multiple of four, the loop looks
    at the last two characters and at no other. *)
Lemma count_padding_quads (s : string) (k : nat) :
  String.length s = (4 * S k)%nat ->
  count_padding (String.length s) s (Z.of_nat (String.length s)) 0
  = if is_pad_at s (Z.of_nat (4 * k + 3))
    then if is_pad_at s (Z.of_nat (4 * k + 2)) then 2 else 1
    else 0.
Proof.
  intros Hlen. rewrite Hlen.
  replace (4 * S k)%nat with (S (S (S (S (4 * k))))) by lia.
  cbn [count_padding].
  replace (Z.of_nat (S (S (S (S (4 * k))))) - 1)
    with (Z.of_nat (4 * k + 3)) by lia.
  replace (Z.of_nat (4 * k + 3) - 1) with (Z.of_nat (4 * k + 2)) by lia.
  replace (Z.of_nat (4 * k + 2) - 1) with (Z.of_nat (4 * k + 1)) by lia.
  assert (H3 : Z.rem (Z.of_nat (4 * k + 3)) 4 = 3).
  { rewrite Z.rem_mod_nonneg by lia.
    replace (Z.of_nat (4 * k + 3)) with (3 + Z.of_nat k * 4) by lia.
    now rewrite Z.mod_add. }
  assert (H2 : Z.rem (Z.of_nat (4 * k + 2)) 4 = 2).
  { rewrite Z.rem_mod_nonneg by lia.
    replace (Z.of_nat (4 * k + 2)) with (2 + Z.of_nat k * 4) by lia.
    now rewrite Z.mod_add. }
  assert (H1 : Z.rem (Z.of_nat (4 * k + 1)) 4 = 1).
  { rewrite Z.rem_mod_nonneg by lia.
    replace (Z.of_nat (4 * k + 1)) with (1 + Z.of_nat k * 4) by lia.
    now rewrite Z.mod_add. }
  rewrite H3, H2, H1. cbn [Z.gtb Z.compare Pos.compare Pos.compare_cont andb].
  destruct (is_pad_at s (Z.of_nat (4 * k + 3))); [|reflexivity].
  destruct (is_pad_at s (Z.of_nat (4 * k + 2))); reflexivity.
Qed.

Lemma b64char_not_pad (v : N) :
  (v < 64)%N -> Ascii.eqb (b64char v) "=" = false.
Proof. intros Hv. exact (proj1 (sextet_char v Hv)). Qed.

(** The encoder's output: its length is four characters per group of three
    bytes, and it ends with as many padding signs as bytes are missing
    from the last group. *)
Lemma toBase64_ends (bs : list byte) :
  bs <> [] ->
  exists k pads,
    String.length (toBase64 bs) = (4 * S k)%nat
    /\ (3 * S k = length bs + pads)%nat
    /\ is_pad_at (toBase64 bs) (Z.of_nat (4 * k + 3)) = (0 <? pads)%nat
    /\ is_pad_at (toBase64 bs) (Z.of_nat (4 * k + 2)) = (1 <? pads)%nat
    /\ (pads <= 2)%nat.
Proof.
  induction bs as [|a|a b|a b c l IH] using list_ind3; intros Hne;
    byte_bounds.
  - contradiction.
  - exists 0%nat, 2%nat. cbn [toBase64]. repeat split; try reflexivity; lia.
  - exists 0%nat, 1%nat. cbn [toBase64]. rewrite !is_pad_at_nat.
    cbn [String.get Nat.mul Nat.add].
    repeat split; try reflexivity; [|lia].
    apply b64char_not_pad.
    replace ((Byte.to_N b mod 16) * 4)%N
      with ((Byte.to_N b mod 16) * 4 + 0 / 64)%N
      by (rewrite N.Div0.div_0_l; lia).
    now apply mid6'.
  - destruct l as [|d l].
    + exists 0%nat, 0%nat. cbn [toBase64]. rewrite !is_pad_at_nat.
      cbn [String.get Nat.mul Nat.add].
      repeat split; try reflexivity; [| |lia].
      * apply b64char_not_pad, lo6.
      * apply b64char_not_pad. now apply mid6'.
    + destruct IH as (k & pads & Hlen & Hsum & Hlast & Hprev & Hle);
        [discriminate|].
      exists (S k), pads.
      change (toBase64 (a :: b :: c :: d :: l))
        with (String (b64char (Byte.to_N a / 4))
                (String (b64char ((Byte.to_N a mod 4) * 16 + Byte.to_N b / 16))
                   (String (b64char ((Byte.to_N b mod 16) * 4 + Byte.to_N c / 64))
                      (String (b64char (Byte.to_N c mod 64))
                         (toBase64 (d :: l)))))).
      rewrite !is_pad_at_nat in *.
      replace (4 * S k + 3)%nat with (S (S (S (S (4 * k + 3))))) by lia.
      replace (4 * S k + 2)%nat with (S (S (S (S (4 * k + 2))))) by lia.
      cbn [String.get String.length]. rewrite Hlen.
      repeat split; try assumption; cbn [length] in *; lia.
Qed.

(** X26: on the padded base64 text of a non-empty byte sequence,
    [allocateForBase64] gives exactly as many bytes as the text encodes,
    all of them zero; on the empty text it gives one byte. *)
Theorem allocateForBase64_size (bs : list byte) :
  allocateForBase64 (toBase64 bs)
  = VUint8Array (repeat x00 (match bs with [] => 1 | _ => length bs end)).
Proof.
  destruct bs as [|b0 bs0] eqn:Hbs; [reflexivity|]. rewrite <- Hbs.
  assert (Hne : bs <> []) by (subst; discriminate).
  destruct (toBase64_ends bs Hne) as (k & pads & Hlen & Hsum & Hlast & Hprev & Hle).
  unfold allocateForBase64.
  rewrite (count_padding_quads _ k Hlen), Hlast, Hprev, Hlen.
  replace (Z.of_nat (4 * S k) =? 0) with false
    by (symmetry; apply Z.eqb_neq; lia).
  f_equal. f_equal.
  assert (Hcount : (if (0 <? pads)%nat then if (1 <? pads)%nat then 2 else 1 else 0)
                   = Z.of_nat pads).
  { destruct pads as [|[|[|p]]]; cbn; try reflexivity. lia. }
  rewrite Hcount.
  replace (Z.of_nat (4 * S k) * 3 - 4 * Z.of_nat pads)
    with (Z.of_nat (length bs) * 4) by lia.
  rewrite Z.quot_mul by lia. apply Nat2Z.id.
Qed.

End AllocateFacts.
